(** * Matchmaking and session-relay engine (socket.io server)

    A shallow embedding of the connection handler of the chat server:
    the connection registry [activeUsers], the waiting pool
    [waitingUsers], the matcher [findPartner], [removeFromWaiting] and
    every event handler installed on a socket.  The two source files
    share all of this code; the second one adds the game relay handlers,
    so the model follows the larger file.

    [User] objects are mutable and shared between the registry and the
    waiting pool, so the state carries an object store ([users], indexed
    by allocation order) and both collections hold references into it.
    The socket.io transport is kept to what the handlers use of it: the
    connected sockets with the rooms each has joined. *)

From stdpp Require Import base list strings.

Open Scope string_scope.
Open Scope list_scope.

(** ** Insertion-ordered maps (JavaScript [Map] with string keys) *)

Section JsMap.
Context {V : Type}.

(** [m.get(k)] *)
Fixpoint Map_get (k : string) (m : list (string * V)) : option V :=
  match m with
  | [] => None
  | (k', v) :: m' => if String.eqb k' k then Some v else Map_get k m'
  end.

(** [m.set(k, v)]: an existing key keeps its position. *)
Fixpoint Map_set (k : string) (v : V) (m : list (string * V)) : list (string * V) :=
  match m with
  | [] => [(k, v)]
  | (k', v') :: m' =>
      if String.eqb k' k then (k', v) :: m' else (k', v') :: Map_set k v m'
  end.

(** [m.delete(k)] *)
Fixpoint Map_delete (k : string) (m : list (string * V)) : list (string * V) :=
  match m with
  | [] => []
  | (k', v') :: m' =>
      if String.eqb k' k then m' else (k', v') :: Map_delete k m'
  end.

(** [Array.from(m.entries()).find(([, v]) => p(v))] *)
Fixpoint Map_find (p : V → bool) (m : list (string * V)) : option (string * V) :=
  match m with
  | [] => None
  | (k, v) :: m' => if p v then Some (k, v) else Map_find p m'
  end.
End JsMap.

(** [arr.findIndex(p)], with [None] for [-1]. *)
Fixpoint findIndex {A} (p : A → bool) (l : list A) : option nat :=
  match l with
  | [] => None
  | x :: l' => if p x then Some 0 else S <$> findIndex p l'
  end.

(** ** Data model *)

(** interface User *)
Record User := mkUser {
  id : string;
  socketId : string;
  interests : option (list string);
  inChat : bool;
  partnerId : option string;
}.

Definition set_interests (v : option (list string)) (u : User) : User :=
  mkUser (id u) (socketId u) v (inChat u) (partnerId u).
Definition set_inChat (v : bool) (u : User) : User :=
  mkUser (id u) (socketId u) (interests u) v (partnerId u).
Definition set_partnerId (v : option string) (u : User) : User :=
  mkUser (id u) (socketId u) (interests u) (inChat u) v.

(** Client-supplied values that the server forwards without looking
    inside (signal, message text, game type, ...), kept serialized. *)
Definition Json := string.

(** Payloads of the outbound events. *)
Inductive Payload :=
| PNone
| PUserId (userId : string)
| POnlineCount (n : nat)
| PPartnerFound (partner roomId : string) (initiator : bool)
| PSignal (signal : Json) (from : string)
| PMessage (msgId senderId : string) (content : Json) (timestamp : nat)
| PTyping (isTyping : Json)
| PGameType (gameType : Json)
| PMove (index symbol : Json)
| PChoice (choice : Json)
| PQuestion (question : Json).

(** One named event handed to the transport for one socket. *)
Record Emit := mkEmit {
  target : string;
  event : string;
  payload : Payload;
}.

(** References to [User] objects. *)
Abbreviation loc := nat (only parsing).

Record State := mkState {
  users : list User;                      (* object store *)
  waitingUsers : list loc;                (* const waitingUsers: User[] *)
  activeUsers : list (string * loc);      (* const activeUsers: Map<string, User> *)
  sockets : list (string * list string);  (* io.sockets.sockets, with socket.rooms *)
}.

Definition init : State := mkState [] [] [] [].

(** Inbound events.  [Connection] carries the socket id chosen by the
    transport and the result of [uuidv4()]; [SendMessage] carries the
    results of [uuidv4()] and [new Date()]. *)
Inductive Event :=
| Connection (sid uid : string)
| FindPartner (sid : string) (ints : option (list string))
| CancelSearch (sid : string)
| WebrtcSignal (sid : string) (signal : Json) (roomId : string)
| SendMessage (sid : string) (message : Json) (roomId : string) (msgId : string) (now : nat)
| Typing (sid : string) (roomId : string) (isTyping : Json)
| RequestGame (sid : string) (roomId : string) (gameType : Json)
| AcceptGame (sid : string) (roomId : string) (gameType : Json)
| DeclineGame (sid : string) (roomId : string) (gameType : Json)
| StartGame (sid : string) (roomId : string) (gameType : Json)
| TicTacToeMove (sid : string) (roomId : string) (index symbol : Json)
| TicTacToePlayAgain (sid : string) (roomId : string)
| WyrChoice (sid : string) (roomId : string) (choice : Json)
| WyrNextQuestion (sid : string) (roomId : string) (question : Json)
| SkipPartner (sid : string)
| Disconnect (sid : string).

(** ** Transport (socket.io) *)

Definition includes (x : string) (l : list string) : bool :=
  existsb (String.eqb x) l.

(** [socket.join(room)]; a socket that is gone joins nothing. *)
Definition join (sid room : string) (socks : list (string * list string))
  : list (string * list string) :=
  match Map_get sid socks with
  | Some rooms =>
      if includes room rooms then socks else Map_set sid (rooms ++ [room]) socks
  | None => socks
  end.

(** The sockets currently in [room]. *)
Definition members (room : string) (socks : list (string * list string)) : list string :=
  (filter (λ e, includes room e.2 = true) socks).*1.

(** [socket.emit(name, p)] *)
Definition socket_emit (sid name : string) (p : Payload) : list Emit :=
  [mkEmit sid name p].

(** [io.sockets.sockets.get(k)?.emit(name, p)] *)
Definition opt_emit (k name : string) (p : Payload)
    (socks : list (string * list string)) : list Emit :=
  match Map_get k socks with
  | Some _ => [mkEmit k name p]
  | None => []
  end.

(** [socket.to(room).emit(name, p)]: the room without the sender. *)
Definition socket_to (sid room name : string) (p : Payload)
    (socks : list (string * list string)) : list Emit :=
  (λ t, mkEmit t name p) <$>
    filter (λ t, String.eqb t sid = false) (members room socks).

(** [io.to(room).emit(name, p)]: the whole room. *)
Definition io_to (room name : string) (p : Payload)
    (socks : list (string * list string)) : list Emit :=
  (λ t, mkEmit t name p) <$> members room socks.

(** [io.emit(name, p)]: every connected socket. *)
Definition io_emit (name : string) (p : Payload)
    (socks : list (string * list string)) : list Emit :=
  (λ t, mkEmit t name p) <$> socks.*1.

(** ** Matcher and waiting pool *)

(** [u.id === userId], read through the reference. *)
Definition has_id (h : list User) (userId : string) (l : loc) : bool :=
  match h !! l with
  | Some u => String.eqb (id u) userId
  | None => false
  end.

(** The test of the first loop of [findPartner]. *)
Definition shares_interest (user cand : User) : bool :=
  negb (String.eqb (id cand) (id user)) &&
  match interests cand with
  | Some ci =>
      match List.filter (λ i, includes i ci) (default [] (interests user)) with
      | [] => false
      | _ :: _ => true
      end
  | None => false
  end.

(** The test of the second loop of [findPartner]. *)
Definition other_user (user cand : User) : bool :=
  negb (String.eqb (id cand) (id user)).

Definition through (h : list User) (p : User → bool) (l : loc) : bool :=
  match h !! l with
  | Some c => p c
  | None => false
  end.

(** [user.interests && user.interests.length > 0] *)
Definition has_interests (user : User) : bool :=
  match interests user with
  | Some (_ :: _) => true
  | _ => false
  end.

(** [waitingUsers.splice(i, 1)[0]] together with the array left behind. *)
Definition splice1 (i : nat) (w : list loc) : option loc * list loc :=
  (w !! i, delete i w).

(** [findPartner(user)]: the reference returned ([None] for [null]) and
    the waiting pool afterwards. *)
Definition findPartner (h : list User) (user : User) (w : list loc)
  : option loc * list loc :=
  match (if has_interests user
         then findIndex (through h (shares_interest user)) w
         else None) with
  | Some i => splice1 i w
  | None =>
      match findIndex (through h (other_user user)) w with
      | Some i => splice1 i w
      | None => (None, w)
      end
  end.

(** [removeFromWaiting(userId)] *)
Definition removeFromWaiting (h : list User) (userId : string) (w : list loc) : list loc :=
  match findIndex (has_id h userId) w with
  | Some index => delete index w
  | None => w
  end.

(** ** Event handlers *)

(** Truthiness of an optional string ([undefined] and [""] are falsy). *)
Definition truthy (o : option string) : bool :=
  match o with
  | Some s => negb (String.eqb s "")
  | None => false
  end.

Definition roomOf (a b : string) : string := "room-" +:+ a +:+ "-" +:+ b.

Definition on_connection (sid uid : string) (s : State) : State * list Emit :=
  let socks := Map_set sid [sid] (sockets s) in
  let user := mkUser uid sid None false None in
  let au := Map_set sid (length (users s)) (activeUsers s) in
  (mkState (users s ++ [user]) (waitingUsers s) au socks,
   socket_emit sid "user-id" (PUserId uid) ++
   socket_emit sid "online-count" (POnlineCount (length au)) ++
   io_emit "online-count" (POnlineCount (length au)) socks).

Definition on_find_partner (sid : string) (ints : option (list string)) (s : State)
  : State * list Emit :=
  match Map_get sid (activeUsers s) with
  | None => (s, [])
  | Some cu =>
    match users s !! cu with
    | None => (s, [])   (* a registered reference is always allocated *)
    | Some c0 =>
      let w1 := removeFromWaiting (users s) (id c0) (waitingUsers s) in
      let c1 := set_inChat false (set_interests ints c0) in
      let h1 := alter (λ u, set_inChat false (set_interests ints u)) cu (users s) in
      match findPartner h1 c1 w1 with
      | (Some pl, w2) =>
        match h1 !! pl with
        | None => (s, [])   (* the matcher only returns allocated references *)
        | Some p =>
          let h2 := alter (λ u, set_inChat true (set_partnerId (Some (id p)) u)) cu h1 in
          let h3 := alter (λ u, set_inChat true (set_partnerId (Some (id c1)) u)) pl h2 in
          let roomId := roomOf (id c1) (id p) in
          let socks := join (socketId p) roomId (join sid roomId (sockets s)) in
          (mkState h3 w2 (activeUsers s) socks,
           socket_emit sid "partner-found" (PPartnerFound (id p) roomId true) ++
           opt_emit (socketId p) "partner-found"
             (PPartnerFound (id c1) roomId false) (sockets s))
        end
      | (None, w2) =>
        (mkState h1 (w2 ++ [cu]) (activeUsers s) (sockets s),
         socket_emit sid "waiting" PNone)
      end
    end
  end.

Definition on_cancel_search (sid : string) (s : State) : State * list Emit :=
  match Map_get sid (activeUsers s) with
  | None => (s, [])
  | Some cu =>
    match users s !! cu with
    | None => (s, [])
    | Some c =>
      (mkState (users s) (removeFromWaiting (users s) (id c) (waitingUsers s))
         (activeUsers s) (sockets s),
       socket_emit sid "search-cancelled" PNone)
    end
  end.

Definition on_send_message (sid : string) (message : Json) (roomId msgId : string)
    (now : nat) (s : State) : State * list Emit :=
  match Map_get sid (activeUsers s) with
  | None => (s, [])
  | Some cu =>
    match users s !! cu with
    | None => (s, [])
    | Some c =>
      (s, io_to roomId "receive-message" (PMessage msgId (id c) message now) (sockets s))
    end
  end.

(** The lookup of the partner shared by skip-partner and disconnect:
    the first registry entry whose user has the given id. *)
Definition partnerEntry (h : list User) (pid : option string)
    (au : list (string * loc)) : option (string * loc) :=
  match pid with
  | Some p => Map_find (has_id h p) au
  | None => None
  end.

Definition clear_partner (u : User) : User :=
  set_inChat false (set_partnerId None u).

Definition on_skip_partner (sid : string) (s : State) : State * list Emit :=
  match Map_get sid (activeUsers s) with
  | None => (s, [])
  | Some cu =>
    match users s !! cu with
    | None => (s, [])
    | Some c =>
      if negb (truthy (partnerId c)) then (s, []) else
      let '(h1, out) :=
        match partnerEntry (users s) (partnerId c) (activeUsers s) with
        | Some (partnerSocketId, partner) =>
            (alter clear_partner partner (users s),
             opt_emit partnerSocketId "partner-disconnected" PNone (sockets s))
        | None => (users s, [])
        end in
      (mkState (alter clear_partner cu h1) (waitingUsers s) (activeUsers s) (sockets s),
       out ++ socket_emit sid "chat-ended" PNone)
    end
  end.

(** By the time the handler runs the transport has dropped the socket
    from the connected set and from all its rooms. *)
Definition on_disconnect (sid : string) (s : State) : State * list Emit :=
  let socks := Map_delete sid (sockets s) in
  let '(s1, out) :=
    match Map_get sid (activeUsers s) with
    | None => (mkState (users s) (waitingUsers s) (activeUsers s) socks, [])
    | Some cu =>
      match users s !! cu with
      | None => (mkState (users s) (waitingUsers s) (activeUsers s) socks, [])
      | Some c =>
        let '(h1, out) :=
          if truthy (partnerId c) then
            match partnerEntry (users s) (partnerId c) (activeUsers s) with
            | Some (partnerSocketId, partner) =>
                (alter clear_partner partner (users s),
                 opt_emit partnerSocketId "partner-disconnected" PNone socks)
            | None => (users s, [])
            end
          else (users s, []) in
        (mkState h1 (removeFromWaiting h1 (id c) (waitingUsers s))
           (Map_delete sid (activeUsers s)) socks,
         out)
      end
    end in
  (s1, out ++ io_emit "online-count" (POnlineCount (length (activeUsers s1))) (sockets s1)).

(** One inbound event: the state afterwards and the events emitted, in
    the order of the calls. *)
Definition step (s : State) (ev : Event) : State * list Emit :=
  match ev with
  | Connection sid uid => on_connection sid uid s
  | FindPartner sid ints => on_find_partner sid ints s
  | CancelSearch sid => on_cancel_search sid s
  | WebrtcSignal sid signal roomId =>
      (s, socket_to sid roomId "webrtc-signal" (PSignal signal sid) (sockets s))
  | SendMessage sid message roomId msgId now =>
      on_send_message sid message roomId msgId now s
  | Typing sid roomId isTyping =>
      (s, socket_to sid roomId "partner-typing" (PTyping isTyping) (sockets s))
  | RequestGame sid roomId gameType =>
      (s, socket_to sid roomId "game-request" (PGameType gameType) (sockets s))
  | AcceptGame sid roomId gameType =>
      (s, socket_to sid roomId "game-accepted" (PGameType gameType) (sockets s))
  | DeclineGame sid roomId gameType =>
      (s, socket_to sid roomId "game-declined" (PGameType gameType) (sockets s))
  | StartGame sid roomId gameType =>
      (s, socket_to sid roomId "game-started" (PGameType gameType) (sockets s))
  | TicTacToeMove sid roomId index symbol =>
      (s, socket_to sid roomId "tic-tac-toe-move" (PMove index symbol) (sockets s))
  | TicTacToePlayAgain sid roomId =>
      (s, socket_to sid roomId "tic-tac-toe-play-again" PNone (sockets s))
  | WyrChoice sid roomId choice =>
      (s, socket_to sid roomId "wyr-choice" (PChoice choice) (sockets s))
  | WyrNextQuestion sid roomId question =>
      (s, socket_to sid roomId "wyr-next-question" (PQuestion question) (sockets s))
  | SkipPartner sid => on_skip_partner sid s
  | Disconnect sid => on_disconnect sid s
  end.

(** Running a sequence of events from a state. *)
Definition run (s : State) (evs : list Event) : State :=
  foldl (λ s ev, (step s ev).1) s evs.

(** Everything emitted along a sequence of events. *)
Fixpoint trace (s : State) (evs : list Event) : list Emit :=
  match evs with
  | [] => []
  | ev :: evs' => (step s ev).2 ++ trace (step s ev).1 evs'
  end.

(** ** Notions used in the statements *)

(** The id read through a reference. *)
Definition hid (h : list User) (l : loc) : option string := id <$> h !! l.

(** The ids of the waiting-pool entries, in arrival order. *)
Definition pool_ids (h : list User) (w : list loc) : list (option string) :=
  hid h <$> w.

(** The two users have at least one interest string in common. *)
Definition common_interest (a b : User) : Prop :=
  ∃ x, x ∈ default [] (interests a) ∧ x ∈ default [] (interests b).

(** Entry [i] of the pool is the reference [l], its user satisfies [P],
    and no earlier entry does. *)
Definition first_in_pool (h : list User) (w : list loc) (P : User → Prop)
    (i : nat) (l : loc) : Prop :=
  ∃ c, w !! i = Some l ∧ h !! l = Some c ∧ P c ∧
       ∀ j l' c', j < i → w !! j = Some l' → h !! l' = Some c' → ¬ P c'.

(** Every registry entry refers to an allocated user created for that
    socket. *)
Definition registry_ok (h : list User) (au : list (string * loc)) : Prop :=
  ∀ k l, (k, l) ∈ au → ∃ u, h !! l = Some u ∧ socketId u = k.

(** Every pool entry refers to an allocated user that is not in a chat. *)
Definition pool_ok (h : list User) (w : list loc) : Prop :=
  ∀ l, l ∈ w → ∃ u, h !! l = Some u ∧ inChat u = false.

(** Nobody is their own partner. *)
Definition not_self (h : list User) : Prop :=
  ∀ l u, h !! l = Some u → partnerId u ≠ Some (id u).

(** What holds of the state after any sequence of events. *)
Record wf (s : State) : Prop := mk_wf {
  wf_registry : registry_ok (users s) (activeUsers s);
  wf_keys : NoDup (activeUsers s).*1;
  wf_sockets : (sockets s).*1 = (activeUsers s).*1;
  wf_pool : pool_ok (users s) (waitingUsers s);
  wf_pool_ids : NoDup (pool_ids (users s) (waitingUsers s));
  wf_not_self : not_self (users s);
}.

(** What the transport and [uuidv4] guarantee of a new connection: the
    socket id is not in use and the user id was never handed out. *)
Definition fresh (s : State) (ev : Event) : bool :=
  match ev with
  | Connection sid uid =>
      negb (includes sid (activeUsers s).*1) && negb (includes uid (id <$> users s))
  | _ => true
  end.

Fixpoint valid (s : State) (evs : list Event) : bool :=
  match evs with
  | [] => true
  | ev :: evs' => fresh s ev && valid (step s ev).1 evs'
  end.

Definition reachable (s : State) : Prop :=
  ∃ evs, valid init evs = true ∧ run init evs = s.

(** What holds in addition under those guarantees. *)
Record uniq (s : State) : Prop := mk_uniq {
  uniq_ids : NoDup (id <$> users s);
  uniq_pool : ∀ l, l ∈ waitingUsers s → ∃ k, (k, l) ∈ activeUsers s;
}.

(** A mutation of a [User] that leaves [id] and [socketId] alone. *)
Definition keeps_ident (f : User → User) : Prop :=
  ∀ u, id (f u) = id u ∧ socketId (f u) = socketId u.

(** The emitted events with a given name, in order. *)
Definition named (name : string) (out : list Emit) : list Emit :=
  filter (λ e, event e = name) out.

(** The relay events other than send-message: the sending socket, the
    room named by the client, and the event and payload sent on. *)
Definition relayed (ev : Event) : option (string * string * string * Payload) :=
  match ev with
  | WebrtcSignal sid signal roomId =>
      Some (sid, roomId, "webrtc-signal", PSignal signal sid)
  | Typing sid roomId isTyping =>
      Some (sid, roomId, "partner-typing", PTyping isTyping)
  | RequestGame sid roomId gameType =>
      Some (sid, roomId, "game-request", PGameType gameType)
  | AcceptGame sid roomId gameType =>
      Some (sid, roomId, "game-accepted", PGameType gameType)
  | DeclineGame sid roomId gameType =>
      Some (sid, roomId, "game-declined", PGameType gameType)
  | StartGame sid roomId gameType =>
      Some (sid, roomId, "game-started", PGameType gameType)
  | TicTacToeMove sid roomId index symbol =>
      Some (sid, roomId, "tic-tac-toe-move", PMove index symbol)
  | TicTacToePlayAgain sid roomId =>
      Some (sid, roomId, "tic-tac-toe-play-again", PNone)
  | WyrChoice sid roomId choice =>
      Some (sid, roomId, "wyr-choice", PChoice choice)
  | WyrNextQuestion sid roomId question =>
      Some (sid, roomId, "wyr-next-question", PQuestion question)
  | _ => None
  end.

(** The socket an event arrives on. *)
Definition sender (ev : Event) : string :=
  match ev with
  | Connection sid _ | FindPartner sid _ | CancelSearch sid
  | WebrtcSignal sid _ _ | SendMessage sid _ _ _ _ | Typing sid _ _
  | RequestGame sid _ _ | AcceptGame sid _ _ | DeclineGame sid _ _
  | StartGame sid _ _ | TicTacToeMove sid _ _ _ | TicTacToePlayAgain sid _
  | WyrChoice sid _ _ | WyrNextQuestion sid _ _ | SkipPartner sid
  | Disconnect sid => sid
  end.



(** The handlers that look the user up in the registry and return at
    once when there is none. *)
Definition guarded (ev : Event) : bool :=
  match ev with
  | FindPartner _ _ | CancelSearch _ | SendMessage _ _ _ _ _ | SkipPartner _ => true
  | _ => false
  end.

(** The string fields of a payload that the server fills in itself (the
    others are copied from the client's event). *)
Definition stamped (p : Payload) : list string :=
  match p with
  | PUserId userId => [userId]
  | PPartnerFound partner roomId _ => [partner; roomId]
  | PSignal _ from => [from]
  | PMessage msgId senderId _ _ => [msgId; senderId]
  | _ => []
  end.

(** Partner symmetry between registered users. *)
Definition partner_symmetric (s : State) : Prop :=
  ∀ ka la kb lb a b,
    (ka, la) ∈ activeUsers s → (kb, lb) ∈ activeUsers s →
    users s !! la = Some a → users s !! lb = Some b →
    (partnerId a = Some (id b) ↔ partnerId b = Some (id a)).

(** A registered user has a partner exactly when it is in a chat. *)
Definition partner_iff_inChat (s : State) : Prop :=
  ∀ k l u, (k, l) ∈ activeUsers s → users s !! l = Some u →
    (is_Some (partnerId u) ↔ inChat u = true).

(** Two users connect; the first waits and the second is matched with
    it, in the room ["room-B-A"]. *)
Definition pairing : list Event :=
  [Connection "sA" "A"; Connection "sB" "B";
   FindPartner "sA" None; FindPartner "sB" None].

Definition paired : State := run init pairing.

(** Three users connect; the first two are paired, the third waits, and
    then the first asks for a partner again while still paired. *)
Definition rematch : list Event :=
  [Connection "sA" "A"; Connection "sB" "B"; Connection "sC" "C";
   FindPartner "sA" None; FindPartner "sB" None; FindPartner "sC" None;
   FindPartner "sA" None].

(** Two users are paired and the first asks for a partner again. *)
Definition requeue : list Event := pairing ++ [FindPartner "sA" None].

(** An event that keeps to the client protocol: user ids are not empty,
    and find-partner is not sent by a user that still has a partner. *)
Definition polite (s : State) (ev : Event) : bool :=
  match ev with
  | Connection _ uid => negb (String.eqb uid "")
  | FindPartner sid _ =>
      match Map_get sid (activeUsers s) with
      | Some cu =>
          match users s !! cu with
          | Some c => negb (truthy (partnerId c))
          | None => true
          end
      | None => true
      end
  | _ => true
  end.

Fixpoint polite_trace (s : State) (evs : list Event) : bool :=
  match evs with
  | [] => true
  | ev :: evs' => fresh s ev && polite s ev && polite_trace (step s ev).1 evs'
  end.

(** The user at [l] is in the registry. *)
Definition registered (s : State) (l : loc) (u : User) : Prop :=
  (∃ k, (k, l) ∈ activeUsers s) ∧ users s !! l = Some u.

(** What holds along polite traces: ids are not empty, the partner of a
    registered user is registered and points back, and a registered user
    has a partner exactly when it is in a chat. *)
Record linked (s : State) : Prop := mk_linked {
  linked_ids : ∀ l u, users s !! l = Some u → id u ≠ "";
  linked_back : ∀ l u x, registered s l u → partnerId u = Some x →
    ∃ l' v, registered s l' v ∧ id v = x ∧ partnerId v = Some (id u);
  linked_inChat : ∀ l u, registered s l u →
    (is_Some (partnerId u) ↔ inChat u = true);
}.

(** ** Lists and maps *)

Section list_facts.
Context {A : Type}.
Implicit Types (p : A → bool) (l : list A).

Lemma findIndex_Some p l i :
  findIndex p l = Some i ↔
  ∃ x, l !! i = Some x ∧ p x = true ∧
       ∀ j y, j < i → l !! j = Some y → p y = false.
Proof.
  revert i. induction l as [|a l IH]; intros i; simpl.
  - split; [done | intros (x & Hx & _); done].
  - destruct (p a) eqn:Hpa.
    + split.
      * intros [= <-]. exists a. repeat split; auto. intros j y Hj. lia.
      * intros (x & Hx & Hpx & Hlt). destruct i as [|i]; [done|].
        specialize (Hlt 0 a ltac:(lia) eq_refl). congruence.
    + split.
      * destruct (findIndex p l) as [k|]; simpl; [|done].
        intros [= <-]. destruct (proj1 (IH k) eq_refl) as (x & Hx & Hpx & Hlt).
        exists x. repeat split; auto.
        intros [|j] y Hj Hy; simpl in Hy; [congruence|].
        apply (Hlt j); [lia | done].
      * intros (x & Hx & Hpx & Hlt). destruct i as [|i]; simpl in Hx.
        { congruence. }
        assert (findIndex p l = Some i) as ->; [|done].
        apply IH. exists x. repeat split; auto.
        intros j y Hj Hy. apply (Hlt (S j)); [lia | done].
Qed.

Lemma findIndex_None p l :
  findIndex p l = None ↔ ∀ x, x ∈ l → p x = false.
Proof.
  induction l as [|a l IH]; simpl.
  - split; [intros _ x Hx; inversion Hx | done].
  - destruct (p a) eqn:Hpa.
    + split; [done|]. intros H. specialize (H a ltac:(left)). congruence.
    + destruct (findIndex p l) as [n|]; simpl.
      * split; [done|]. intros H.
        assert (Some n = None); [|done].
        apply IH. intros x Hx. apply H. by right.
      * split; [|done]. intros _ x Hx.
        apply elem_of_cons in Hx as [->|Hx]; [done|]. by apply IH.
Qed.

Lemma findIndex_ext p q l :
  (∀ x, x ∈ l → p x = q x) → findIndex p l = findIndex q l.
Proof.
  induction l as [|a l IH]; intros H; simpl; [done|].
  rewrite (H a) by left. rewrite IH; [done|]. intros x Hx. apply H. by right.
Qed.
End list_facts.

(** ** The matcher *)

Lemma shares_interest_spec user cand :
  shares_interest user cand = true ↔
  id cand ≠ id user ∧ common_interest user cand.
Proof.
  unfold shares_interest, common_interest.
  rewrite andb_true_iff, negb_true_iff, String.eqb_neq.
  apply and_iff_compat_l.
  destruct (interests cand) as [ci|]; simpl.
  - destruct (List.filter _ _) as [|x xs] eqn:Hf.
    + split; [done|]. intros (x & Hu & Hc).
      assert (In x []) as []. rewrite <- Hf. apply filter_In. split.
      * by apply list_elem_of_In.
      * unfold includes. apply existsb_exists. exists x.
        split; [by apply list_elem_of_In | apply String.eqb_refl].
    + split; [|done]. intros _.
      assert (In x (x :: xs)) as Hin by (by left).
      rewrite <- Hf in Hin. apply filter_In in Hin as [Hu Hc].
      exists x. split; [by apply list_elem_of_In|].
      unfold includes in Hc. apply existsb_exists in Hc as (y & Hy & Heq).
      apply String.eqb_eq in Heq as ->. by apply list_elem_of_In.
  - split; [done|]. intros (x & _ & Hx). inversion Hx.
Qed.

Lemma shares_interest_has_interests user cand :
  shares_interest user cand = true → has_interests user = true.
Proof.
  intros (_ & x & Hx & _)%shares_interest_spec. unfold has_interests.
  destruct (interests user) as [[|]|]; simpl in *; try done; inversion Hx.
Qed.

Lemma other_user_spec user cand :
  other_user user cand = true ↔ id cand ≠ id user.
Proof. unfold other_user. by rewrite negb_true_iff, String.eqb_neq. Qed.

Lemma through_first h w (p : User → bool) (P : User → Prop) i l :
  (∀ c, p c = true ↔ P c) →
  first_in_pool h w P i l →
  findIndex (through h p) w = Some i.
Proof.
  intros Hp (c & Hi & Hl & HP & Hfirst). apply findIndex_Some.
  exists l. split; [done|]. unfold through. rewrite Hl. split; [by apply Hp|].
  intros j l' Hj Hl'. destruct (h !! l') as [c'|] eqn:Hc'; [|done].
  destruct (p c') eqn:Hpc; [|done]. apply Hp in Hpc. by destruct (Hfirst j l' c').
Qed.

Lemma through_none h w (p : User → bool) (P : User → Prop) :
  (∀ c, p c = true ↔ P c) →
  findIndex (through h p) w = None ↔
  ∀ l c, l ∈ w → h !! l = Some c → ¬ P c.
Proof.
  intros Hp. rewrite findIndex_None. unfold through. split.
  - intros H l c Hl Hc HP. specialize (H l Hl). rewrite Hc in H.
    apply Hp in HP. congruence.
  - intros H l Hl. destruct (h !! l) as [c|] eqn:Hc; [|done].
    destruct (p c) eqn:Hpc; [|done]. apply Hp in Hpc. by destruct (H l c).
Qed.

Lemma findPartner_inv h user w r w' :
  findPartner h user w = (r, w') →
  (r = None ∧ w' = w ∧ findIndex (through h (other_user user)) w = None) ∨
  (∃ i pl p, r = Some pl ∧ w' = delete i w ∧ w !! i = Some pl ∧
             h !! pl = Some p ∧ id p ≠ id user).
Proof.
  unfold findPartner, splice1.
  destruct (if has_interests user then _ else _) as [i|] eqn:H1.
  - destruct (has_interests user); [|done].
    apply findIndex_Some in H1 as (pl & Hi & Hp & _). intros [= <- <-].
    right. unfold through in Hp. destruct (h !! pl) as [p|] eqn:Hpl; [|done].
    apply shares_interest_spec in Hp as [Hne _]. by exists i, pl, p.
  - clear H1. destruct (findIndex (through h (other_user user)) w) as [i|] eqn:H2.
    + apply findIndex_Some in H2 as (pl & Hi & Hp & _). intros [= <- <-].
      right. unfold through in Hp. destruct (h !! pl) as [p|] eqn:Hpl; [|done].
      apply other_user_spec in Hp. by exists i, pl, p.
    + intros [= <- <-]. by left.
Qed.

(** C2.  The matcher works in two tiers over the pool in arrival order:
    the first candidate other than the requester that shares an interest
    string with it is selected and removed; when the requester has no
    interests or no candidate shares one, the first candidate other than
    the requester is selected and removed; the result is none exactly
    when every pool entry is the requester itself (an empty pool
    included), and then the pool is left as it was. *)
Theorem findPartner_two_tier (h : list User) (user : User) (w : list loc) :
  let T1 c := id c ≠ id user ∧ common_interest user c in
  let T2 c := id c ≠ id user in
  (∀ i l, first_in_pool h w T1 i l →
     has_interests user = true ∧ findPartner h user w = (Some l, delete i w)) ∧
  (∀ i l, has_interests user = false ∨
          (∀ l' c, l' ∈ w → h !! l' = Some c → ¬ T1 c) →
     first_in_pool h w T2 i l →
     findPartner h user w = (Some l, delete i w)) ∧
  ((findPartner h user w).1 = None ↔
     ∀ l c, l ∈ w → h !! l = Some c → id c = id user) ∧
  ((findPartner h user w).1 = None → (findPartner h user w).2 = w).
Proof.
  intros T1 T2. repeat split.
  - destruct H as (c & _ & _ & HT & _).
    eapply shares_interest_has_interests, shares_interest_spec, HT.
  - pose proof H as (c & Hi & _ & HT & _).
    apply (through_first _ _ (shares_interest user)) in H;
      [|apply shares_interest_spec].
    assert (has_interests user = true) as Hhi.
    { eapply shares_interest_has_interests, shares_interest_spec, HT. }
    unfold findPartner, splice1. by rewrite Hhi, H, Hi.
  - intros i l Hno Hfirst. pose proof Hfirst as (c & Hi & _).
    apply (through_first _ _ (other_user user)) in Hfirst;
      [|apply other_user_spec].
    unfold findPartner, splice1.
    assert ((if has_interests user
             then findIndex (through h (shares_interest user)) w
             else None) = None) as ->.
    { destruct Hno as [->|Hno]; [done|]. destruct (has_interests user); [|done].
      by apply (through_none _ _ _ T1); [apply shares_interest_spec|]. }
    by rewrite Hfirst, Hi.
  - intros Hnone l c Hl Hc.
    destruct (findPartner h user w) as [r w'] eqn:Hfp. simpl in Hnone. subst r.
    apply findPartner_inv in Hfp as [(_ & _ & Hfi)|(? & ? & ? & ? & _)]; [|done].
    rewrite (through_none _ _ _ T2) in Hfi by apply other_user_spec.
    destruct (decide (id c = id user)) as [|Hne]; [done|].
    by destruct (Hfi l c).
  - intros Hall.
    destruct (findPartner h user w) as [r w'] eqn:Hfp. simpl.
    apply findPartner_inv in Hfp as [(-> & _)|(i & pl & p & _ & _ & Hi & Hp & Hne)];
      [done|].
    destruct Hne. apply (Hall pl); [|done]. by eapply list_elem_of_lookup_2.
  - destruct (findPartner h user w) as [r w'] eqn:Hfp. simpl. intros ->.
    by apply findPartner_inv in Hfp as [(_ & -> & _)|(? & ? & ? & ? & _)].
Qed.

(** ** Maps *)

Section map_facts.
Context {V : Type}.
Implicit Types (m : list (string * V)) (k : string) (v : V).

Lemma Map_get_Some_elem m k v : Map_get k m = Some v → (k, v) ∈ m.
Proof.
  induction m as [|[k' v'] m IH]; simpl; [done|].
  destruct (String.eqb_spec k' k) as [->|Hne].
  - intros [= ->]. left.
  - intros H. right. auto.
Qed.

Lemma Map_get_None m k : Map_get k m = None ↔ k ∉ m.*1.
Proof.
  induction m as [|[k' v'] m IH]; simpl.
  - split; [intros _ H; inversion H | done].
  - rewrite not_elem_of_cons. destruct (String.eqb_spec k' k) as [->|Hne].
    + split; [done | by intros [? _]].
    + rewrite IH. split; [intros ?; split; [congruence | done] | by intros [_ ?]].
Qed.

Lemma Map_get_is_Some m k : is_Some (Map_get k m) ↔ k ∈ m.*1.
Proof.
  destruct (Map_get k m) eqn:H.
  - split; [intros _ | eauto]. apply Map_get_Some_elem in H.
    apply list_elem_of_fmap. by exists (k, v).
  - apply Map_get_None in H. split; [by intros [? ?] | done].
Qed.

Lemma Map_get_elem m k v : NoDup m.*1 → (k, v) ∈ m → Map_get k m = Some v.
Proof.
  induction m as [|[k' v'] m IH]; simpl; intros Hnd Hin; [inversion Hin|].
  apply NoDup_cons in Hnd as [Hk' Hnd].
  apply elem_of_cons in Hin as [[= <- <-]|Hin].
  - by rewrite String.eqb_refl.
  - destruct (String.eqb_spec k' k) as [->|Hne]; [|auto].
    destruct Hk'. apply list_elem_of_fmap. by exists (k, v).
Qed.

Lemma Map_set_elem m k v k' v' :
  (k', v') ∈ Map_set k v m → (k' = k ∧ v' = v) ∨ (k', v') ∈ m.
Proof.
  induction m as [|[k0 v0] m IH]; simpl.
  - intros [= -> ->]%list_elem_of_singleton. by left.
  - destruct (String.eqb_spec k0 k) as [->|Hne].
    + intros [[= -> ->]|Hin]%elem_of_cons; [by left | right; by right].
    + intros [[= -> ->]|Hin]%elem_of_cons; [right; left|].
      destruct (IH Hin) as [?|?]; [by left | right; by right].
Qed.

Lemma Map_set_keys_present m k v :
  k ∈ m.*1 → (Map_set k v m).*1 = m.*1.
Proof.
  induction m as [|[k0 v0] m IH]; simpl; intros Hin; [inversion Hin|].
  destruct (String.eqb_spec k0 k) as [->|Hne]; [done|]. simpl. f_equal.
  apply elem_of_cons in Hin as [->|Hin]; [done | auto].
Qed.

Lemma Map_set_keys_absent m k v :
  k ∉ m.*1 → (Map_set k v m).*1 = m.*1 ++ [k].
Proof.
  induction m as [|[k0 v0] m IH]; simpl; intros Hin; [done|].
  apply not_elem_of_cons in Hin as [Hne Hin].
  destruct (String.eqb_spec k0 k) as [->|_]; [done|]. simpl. f_equal. auto.
Qed.

Lemma Map_set_NoDup m k v : NoDup m.*1 → NoDup (Map_set k v m).*1.
Proof.
  intros Hnd. destruct (decide (k ∈ m.*1)) as [Hin|Hin].
  - by rewrite Map_set_keys_present.
  - rewrite Map_set_keys_absent by done. apply NoDup_app.
    repeat split; [done | | apply NoDup_singleton].
    intros x Hx ->%list_elem_of_singleton. done.
Qed.

Lemma Map_delete_sublist m k : Map_delete k m `sublist_of` m.
Proof.
  induction m as [|[k0 v0] m IH]; simpl; [done|].
  destruct (String.eqb k0 k); [by apply sublist_cons | by apply sublist_skip].
Qed.

Lemma Map_delete_elem m k k' v' :
  NoDup m.*1 → (k', v') ∈ Map_delete k m → k' ≠ k ∧ (k', v') ∈ m.
Proof.
  induction m as [|[k0 v0] m IH]; simpl; intros Hnd Hin; [inversion Hin|].
  apply NoDup_cons in Hnd as [Hk0 Hnd].
  destruct (String.eqb_spec k0 k) as [->|Hne].
  - split; [|by right]. intros ->. destruct Hk0.
    apply list_elem_of_fmap. by exists (k, v').
  - apply elem_of_cons in Hin as [[= -> ->]|Hin]; [split; [done | left]|].
    destruct (IH Hnd Hin). split; [done | by right].
Qed.

Lemma Map_delete_keep m k k' v' :
  k' ≠ k → (k', v') ∈ m → (k', v') ∈ Map_delete k m.
Proof.
  intros Hne. induction m as [|[k0 v0] m IH]; simpl; intros Hin; [inversion Hin|].
  destruct (String.eqb_spec k0 k) as [->|Hne'].
  - apply elem_of_cons in Hin as [[= -> ->]|Hin]; done.
  - apply elem_of_cons in Hin as [[= -> ->]|Hin]; [left | right; auto].
Qed.

Lemma Map_delete_NoDup m k : NoDup m.*1 → NoDup (Map_delete k m).*1.
Proof.
  intros Hnd. eapply sublist_NoDup; [done|].
  apply fmap_sublist, Map_delete_sublist.
Qed.

Lemma Map_find_Some (p : V → bool) m k v :
  Map_find p m = Some (k, v) → (k, v) ∈ m ∧ p v = true.
Proof.
  induction m as [|[k0 v0] m IH]; simpl; [done|].
  destruct (p v0) eqn:Hp.
  - intros [= -> ->]. split; [left | done].
  - intros [? ?]%IH. split; [by right | done].
Qed.

Lemma Map_find_None (p : V → bool) m :
  Map_find p m = None → ∀ k v, (k, v) ∈ m → p v = false.
Proof.
  induction m as [|[k0 v0] m IH]; simpl; intros H k v Hin; [inversion Hin|].
  destruct (p v0) eqn:Hp; [done|].
  apply elem_of_cons in Hin as [[= -> ->]|Hin]; eauto.
Qed.
End map_facts.

Lemma Map_set_keys_eq {V W} (m1 : list (string * V)) (m2 : list (string * W)) k v w :
  m1.*1 = m2.*1 → (Map_set k v m1).*1 = (Map_set k w m2).*1.
Proof.
  intros Heq. destruct (decide (k ∈ m1.*1)) as [Hin|Hin].
  - rewrite !Map_set_keys_present; [done | by rewrite <- Heq | done].
  - rewrite !Map_set_keys_absent; [by rewrite Heq | by rewrite <- Heq | done].
Qed.

Lemma Map_delete_keys_eq {V W} (m1 : list (string * V)) (m2 : list (string * W)) k :
  m1.*1 = m2.*1 → (Map_delete k m1).*1 = (Map_delete k m2).*1.
Proof.
  revert m2. induction m1 as [|[k1 v1] m1 IH]; intros [|[k2 v2] m2]; simpl; try done.
  intros [= -> Heq]. destruct (String.eqb k2 k); simpl; [done|]. f_equal. auto.
Qed.

Lemma join_keys sid room socks : (join sid room socks).*1 = socks.*1.
Proof.
  unfold join. destruct (Map_get sid socks) as [rooms|] eqn:Hg; [|done].
  destruct (includes room rooms); [done|].
  apply Map_set_keys_present, Map_get_is_Some. eauto.
Qed.

Lemma Map_delete_absent {V} (m : list (string * V)) k :
  k ∉ m.*1 → Map_delete k m = m.
Proof.
  induction m as [|[k0 v0] m IH]; simpl; intros Hin; [done|].
  apply not_elem_of_cons in Hin as [Hne Hin].
  destruct (String.eqb_spec k0 k) as [->|_]; [done|]. f_equal. auto.
Qed.

(** ** The object store and the waiting pool *)

Lemma has_id_hid h a l : has_id h a l = true ↔ hid h l = Some a.
Proof.
  unfold has_id, hid. destruct (h !! l) as [u|]; simpl; [|done].
  rewrite String.eqb_eq. split; congruence.
Qed.

Lemma keeps_ident_interests ints :
  keeps_ident (λ u, set_inChat false (set_interests ints u)).
Proof. by intros u. Qed.

Lemma keeps_ident_match pid :
  keeps_ident (λ u, set_inChat true (set_partnerId (Some pid) u)).
Proof. by intros u. Qed.

Lemma keeps_ident_clear : keeps_ident clear_partner.
Proof. by intros u. Qed.

Section store.
Context (f : User → User) (Hf : keeps_ident f).
Implicit Types (h : list User) (w : list loc) (l : loc).

Lemma lookup_alter_keeps l0 h l u :
  h !! l = Some u →
  ∃ u', alter f l0 h !! l = Some u' ∧ id u' = id u ∧ socketId u' = socketId u ∧
        ((l ≠ l0 ∧ u' = u) ∨ (l = l0 ∧ u' = f u)).
Proof.
  intros Hl. rewrite list_lookup_alter. case_decide as Hd.
  - subst. rewrite Hl. simpl. exists (f u). destruct (Hf u). eauto 10.
  - exists u. eauto 10.
Qed.

Lemma hid_alter l0 h l : hid (alter f l0 h) l = hid h l.
Proof.
  unfold hid. rewrite list_lookup_alter. case_decide; [|done]. subst.
  destruct (h !! l) as [u|]; simpl; [|done]. by destruct (Hf u) as [-> _].
Qed.

Lemma has_id_alter l0 h a l : has_id (alter f l0 h) a l = has_id h a l.
Proof.
  apply eq_true_iff_eq. by rewrite !has_id_hid, hid_alter.
Qed.

Lemma pool_ids_alter l0 h w : pool_ids (alter f l0 h) w = pool_ids h w.
Proof. unfold pool_ids. apply list_fmap_ext. intros _ l _. apply hid_alter. Qed.

Lemma ids_alter l0 h : id <$> alter f l0 h = id <$> h.
Proof.
  apply list_eq. intros l. rewrite !list_lookup_fmap. apply hid_alter.
Qed.

Lemma removeFromWaiting_alter l0 h a w :
  removeFromWaiting (alter f l0 h) a w = removeFromWaiting h a w.
Proof.
  unfold removeFromWaiting.
  rewrite (findIndex_ext _ (has_id h a)); [done|].
  intros l _. apply has_id_alter.
Qed.

Lemma registry_ok_alter l0 h au :
  registry_ok h au → registry_ok (alter f l0 h) au.
Proof.
  intros H k l Hin. destruct (H k l Hin) as (u & Hu & Hs).
  destruct (lookup_alter_keeps l0 h l u Hu) as (u' & Hu' & _ & Hs' & _).
  exists u'. split; [done | congruence].
Qed.

Lemma pool_ok_alter l0 h w :
  (∀ u, inChat u = false → inChat (f u) = false) →
  pool_ok h w → pool_ok (alter f l0 h) w.
Proof.
  intros Hc H l Hin. destruct (H l Hin) as (u & Hu & Hs).
  destruct (lookup_alter_keeps l0 h l u Hu)
    as (u' & Hu' & _ & _ & [[_ ->]|[_ ->]]); eauto.
Qed.

Lemma pool_ok_alter_notin l0 h w :
  l0 ∉ w → pool_ok h w → pool_ok (alter f l0 h) w.
Proof.
  intros Hni H l Hin. destruct (H l Hin) as (u & Hu & Hs).
  exists u. split; [|done]. rewrite list_lookup_alter_ne; [done|].
  intros ->. done.
Qed.

Lemma not_self_alter l0 h :
  (∀ u, h !! l0 = Some u → partnerId (f u) ≠ Some (id u)) →
  not_self h → not_self (alter f l0 h).
Proof.
  intros Hc H l u'. rewrite list_lookup_alter. case_decide as Hd.
  - subst. destruct (h !! l) as [u|] eqn:Hu; simpl; [|done].
    intros [= <-]. destruct (Hf u) as [-> _]. by apply Hc.
  - apply H.
Qed.
End store.

Lemma NoDup_delete_lookup {A} (l : list A) i x :
  NoDup l → l !! i = Some x → x ∉ delete i l.
Proof.
  intros Hnd Hi Hin. apply list_elem_of_lookup in Hin as [j Hj].
  rewrite list_lookup_delete in Hj. case_decide.
  - pose proof (NoDup_lookup _ _ _ _ Hnd Hi Hj). lia.
  - pose proof (NoDup_lookup _ _ _ _ Hnd Hi Hj). lia.
Qed.

Lemma removeFromWaiting_sublist h a w : removeFromWaiting h a w `sublist_of` w.
Proof.
  unfold removeFromWaiting. destruct (findIndex _ _); [apply sublist_delete | done].
Qed.

Lemma removeFromWaiting_not_in h a w :
  NoDup (pool_ids h w) → Some a ∉ pool_ids h (removeFromWaiting h a w).
Proof.
  unfold removeFromWaiting, pool_ids. intros Hnd.
  destruct (findIndex (has_id h a) w) as [i|] eqn:Hfi.
  - apply findIndex_Some in Hfi as (l & Hl & Hid & _).
    apply has_id_hid in Hid. rewrite <- Hid, list_fmap_delete.
    apply NoDup_delete_lookup; [done|]. by rewrite list_lookup_fmap, Hl.
  - intros (l & Hid & Hl)%list_elem_of_fmap.
    rewrite findIndex_None in Hfi. specialize (Hfi l Hl).
    symmetry in Hid. apply has_id_hid in Hid. congruence.
Qed.

Lemma pool_ok_sublist h w w' : w' `sublist_of` w → pool_ok h w → pool_ok h w'.
Proof. intros Hsub H l Hl. apply H. by eapply elem_of_sublist. Qed.

Lemma pool_ids_sublist h w w' :
  w' `sublist_of` w → NoDup (pool_ids h w) → NoDup (pool_ids h w').
Proof.
  intros Hsub Hnd. eapply sublist_NoDup; [done|]. by apply fmap_sublist.
Qed.

Lemma pool_ids_not_in h w l a :
  hid h l = Some a → Some a ∉ pool_ids h w → l ∉ w.
Proof.
  intros Hl Hni Hin. apply Hni. unfold pool_ids.
  apply list_elem_of_fmap. by exists l.
Qed.

(** ** Well-formedness is preserved by every handler *)

Lemma registered_allocated s sid cu :
  wf s → Map_get sid (activeUsers s) = Some cu →
  ∃ c, users s !! cu = Some c ∧ socketId c = sid.
Proof. intros Hwf Hg. by apply (wf_registry s Hwf), Map_get_Some_elem. Qed.

Lemma wf_init : wf init.
Proof.
  split; simpl; try done; try apply NoDup_nil_2.
  - intros k l H. inversion H.
  - intros l H. inversion H.
Qed.

Lemma wf_connection s sid uid : wf s → wf (on_connection sid uid s).1.
Proof.
  intros [Hreg Hkeys Hsock Hpool Hids Hself]. split; simpl.
  - intros k l [[-> ->]|Hin]%Map_set_elem.
    + exists (mkUser uid sid None false None). split; [|done].
      by rewrite lookup_app_r, Nat.sub_diag.
    + destruct (Hreg k l Hin) as (u & Hu & Hs). exists u.
      split; [by apply lookup_app_l_Some | done].
  - by apply Map_set_NoDup.
  - by apply Map_set_keys_eq.
  - intros l Hl. destruct (Hpool l Hl) as (u & Hu & Hc). exists u.
    split; [by apply lookup_app_l_Some | done].
  - unfold pool_ids in *. erewrite list_fmap_ext; [exact Hids|].
    intros i l Hl. apply list_elem_of_lookup_2 in Hl.
    destruct (Hpool l Hl) as (u & Hu & _). unfold hid.
    by rewrite (lookup_app_l_Some _ _ _ _ Hu), Hu.
  - intros l u. rewrite lookup_app_Some.
    intros [Hu|[_ Hu]]; [by eapply Hself|].
    apply list_lookup_singleton_Some in Hu as [_ <-]. done.
Qed.

Lemma wf_cancel_search s sid : wf s → wf (on_cancel_search sid s).1.
Proof.
  intros Hwf. unfold on_cancel_search.
  destruct (Map_get sid (activeUsers s)) as [cu|]; [|done].
  destruct (users s !! cu) as [c|]; [|done].
  destruct Hwf as [Hreg Hkeys Hsock Hpool Hids Hself]. split; simpl; try done.
  - eapply pool_ok_sublist; [apply removeFromWaiting_sublist | done].
  - eapply pool_ids_sublist; [apply removeFromWaiting_sublist | done].
Qed.

Lemma wf_send_message s sid message roomId msgId now :
  wf s → wf (on_send_message sid message roomId msgId now s).1.
Proof.
  intros Hwf. unfold on_send_message.
  destruct (Map_get sid (activeUsers s)) as [cu|]; [|done].
  by destruct (users s !! cu) as [c|].
Qed.

Lemma clear_not_self (h : list User) (l0 : nat) :
  ∀ u, h !! l0 = Some u → partnerId (clear_partner u) ≠ Some (id u).
Proof. done. Qed.

Lemma clear_not_inChat u : inChat u = false → inChat (clear_partner u) = false.
Proof. done. Qed.

Lemma wf_skip_partner s sid : wf s → wf (on_skip_partner sid s).1.
Proof.
  intros Hwf. unfold on_skip_partner.
  destruct (Map_get sid (activeUsers s)) as [cu|]; [|done].
  destruct (users s !! cu) as [c|]; [|done].
  destruct (negb (truthy (partnerId c))); [done|].
  destruct Hwf as [Hreg Hkeys Hsock Hpool Hids Hself].
  destruct (partnerEntry _ _ _) as [[k pl]|]; split; simpl; try done;
    repeat first
      [ apply registry_ok_alter | apply pool_ok_alter | apply not_self_alter
      | rewrite pool_ids_alter | apply keeps_ident_clear
      | apply clear_not_self | apply clear_not_inChat | assumption ].
Qed.

Lemma wf_disconnect s sid : wf s → wf (on_disconnect sid s).1.
Proof.
  intros Hwf. unfold on_disconnect.
  destruct (Map_get sid (activeUsers s)) as [cu|] eqn:Hg.
  - destruct (registered_allocated s sid cu Hwf Hg) as (c & Hc & _). rewrite Hc.
    destruct Hwf as [Hreg Hkeys Hsock Hpool Hids Hself].
    assert (registry_ok (users s) (Map_delete sid (activeUsers s))) as Hreg'.
    { intros k l [_ Hin]%Map_delete_elem; auto. }
    destruct (truthy (partnerId c));
      [destruct (partnerEntry _ _ _) as [[k pl]|]|]; split; simpl;
      try (by apply Map_delete_NoDup); try (by apply Map_delete_keys_eq);
      rewrite ?removeFromWaiting_alter by apply keeps_ident_clear;
      try (eapply pool_ok_sublist; [apply removeFromWaiting_sublist|]);
      try (eapply pool_ids_sublist; [apply removeFromWaiting_sublist|]);
      repeat first
        [ apply registry_ok_alter | apply pool_ok_alter | apply not_self_alter
        | rewrite pool_ids_alter | apply keeps_ident_clear
        | apply clear_not_self | apply clear_not_inChat | assumption ].
  - destruct Hwf as [Hreg Hkeys Hsock Hpool Hids Hself]. split; simpl; try done.
    rewrite Map_delete_absent; [done|]. rewrite Hsock. by apply Map_get_None.
Qed.

(** What the find-partner handler does, once the dead branches of the
    model are discharged: either the requester is queued, or it is paired
    with the user at index [i] of the pool it was removed from. *)
Lemma on_find_partner_cases s sid ints cu :
  wf s → Map_get sid (activeUsers s) = Some cu →
  ∃ c0, users s !! cu = Some c0 ∧
  let c1 := set_inChat false (set_interests ints c0) in
  let h1 := alter (λ u, set_inChat false (set_interests ints u)) cu (users s) in
  let w1 := removeFromWaiting (users s) (id c0) (waitingUsers s) in
  h1 !! cu = Some c1 ∧ (cu ∉ w1) ∧ pool_ok h1 w1 ∧ NoDup (pool_ids h1 w1) ∧
  ((findPartner h1 c1 w1 = (None, w1) ∧
    on_find_partner sid ints s =
      (mkState h1 (w1 ++ [cu]) (activeUsers s) (sockets s),
       socket_emit sid "waiting" PNone)) ∨
   (∃ i pl p, findPartner h1 c1 w1 = (Some pl, delete i w1) ∧
      w1 !! i = Some pl ∧ h1 !! pl = Some p ∧ id p ≠ id c0 ∧ pl ≠ cu ∧
      (pl ∉ delete i w1) ∧
      on_find_partner sid ints s =
        (mkState
           (alter (λ u, set_inChat true (set_partnerId (Some (id c0)) u)) pl
              (alter (λ u, set_inChat true (set_partnerId (Some (id p)) u)) cu h1))
           (delete i w1) (activeUsers s)
           (join (socketId p) (roomOf (id c0) (id p))
              (join sid (roomOf (id c0) (id p)) (sockets s))),
         (socket_emit sid "partner-found"
            (PPartnerFound (id p) (roomOf (id c0) (id p)) true) ++
          opt_emit (socketId p) "partner-found"
            (PPartnerFound (id c0) (roomOf (id c0) (id p)) false) (sockets s))))).
Proof.
  intros Hwf Hg. destruct (registered_allocated s sid cu Hwf Hg) as (c0 & Hc0 & _).
  exists c0. split; [done|]. intros c1 h1 w1.
  destruct Hwf as [Hreg Hkeys Hsock Hpool Hids Hself].
  pose proof (keeps_ident_interests ints) as Hk.
  assert (h1 !! cu = Some c1) as Hc1.
  { unfold h1. by rewrite list_lookup_alter_eq, Hc0. }
  assert (cu ∉ w1) as Hcu.
  { eapply (pool_ids_not_in (users s)); [by unfold hid; rewrite Hc0|].
    by apply removeFromWaiting_not_in. }
  assert (pool_ok h1 w1) as Hpool1.
  { apply pool_ok_alter; [done | done |].
    eapply pool_ok_sublist; [apply removeFromWaiting_sublist | done]. }
  assert (NoDup (pool_ids h1 w1)) as Hids1.
  { unfold h1. rewrite pool_ids_alter by done.
    eapply pool_ids_sublist; [apply removeFromWaiting_sublist | done]. }
  repeat split; try done.
  unfold on_find_partner. rewrite Hg, Hc0. fold c1 h1 w1.
  destruct (findPartner h1 c1 w1) as [r w2] eqn:Hfp.
  apply findPartner_inv in Hfp
    as [(-> & -> & _)|(i & pl & p & -> & -> & Hi & Hp & Hne)].
  - by left.
  - right. exists i, pl, p. rewrite Hp.
    assert (pl ≠ cu) by (intros ->; congruence).
    assert (pl ∉ delete i w1).
    { apply NoDup_delete_lookup; [|done]. by eapply NoDup_fmap_1. }
    done.
Qed.

Lemma wf_find_partner s sid ints : wf s → wf (on_find_partner sid ints s).1.
Proof.
  intros Hwf.
  destruct (Map_get sid (activeUsers s)) as [cu|] eqn:Hg;
    [|by unfold on_find_partner; rewrite Hg].
  destruct (on_find_partner_cases s sid ints cu Hwf Hg)
    as (c0 & Hc0 & Hc1 & Hcu & Hpool1 & Hids1 & Hcases).
  destruct Hwf as [Hreg Hkeys Hsock Hpool Hids Hself].
  pose proof (keeps_ident_interests ints) as Hk.
  assert (not_self (alter (λ u, set_inChat false (set_interests ints u)) cu (users s)))
    as Hself1.
  { apply not_self_alter; [done | | done]. intros u Hu. apply (Hself cu u Hu). }
  destruct Hcases as [[_ ->]|(i & pl & p & _ & Hi & Hp & Hne & Hplcu & Hpl & ->)];
    split; simpl; try done.
  - by apply registry_ok_alter.
  - intros l [Hl| ->%list_elem_of_singleton]%elem_of_app; [by apply Hpool1|].
    eexists. split; [exact Hc1 | done].
  - unfold pool_ids in *. rewrite fmap_app. apply NoDup_app.
    repeat split; [done | | apply NoDup_singleton].
    intros x Hx ->%list_elem_of_singleton.
    apply list_elem_of_fmap in Hx as (l & Hl & Hin).
    rewrite !hid_alter in Hl by done.
    apply (removeFromWaiting_not_in _ (id c0)) in Hids. apply Hids.
    apply list_elem_of_fmap. exists l. split; [|done].
    rewrite <- Hl. unfold hid. by rewrite Hc0.
  - repeat apply registry_ok_alter; auto using keeps_ident_match.
  - by rewrite !join_keys.
  - apply pool_ok_alter_notin; [done|].
    apply pool_ok_alter_notin; [by intros ?%list_elem_of_delete_inv|].
    eapply pool_ok_sublist; [apply sublist_delete | done].
  - rewrite !pool_ids_alter by apply keeps_ident_match.
    eapply pool_ids_sublist; [apply sublist_delete | done].
  - apply not_self_alter; [apply keeps_ident_match | |].
    + intros u. rewrite list_lookup_alter_ne by done. rewrite Hp.
      intros [= <-]. simpl. congruence.
    + apply not_self_alter; [apply keeps_ident_match | | done].
      intros u. rewrite Hc1. intros [= <-]. simpl. congruence.
Qed.

Lemma wf_step s ev : wf s → wf (step s ev).1.
Proof.
  intros Hwf. destruct ev; simpl; try done.
  - by apply wf_connection.
  - by apply wf_find_partner.
  - by apply wf_cancel_search.
  - by apply wf_send_message.
  - by apply wf_skip_partner.
  - by apply wf_disconnect.
Qed.

Lemma wf_run_from s evs : wf s → wf (run s evs).
Proof.
  revert s. induction evs as [|ev evs IH]; intros s Hwf; simpl; [done|].
  apply IH, wf_step, Hwf.
Qed.

Lemma wf_run evs : wf (run init evs).
Proof. apply wf_run_from, wf_init. Qed.

(** C6.  After any sequence of events the ids of the waiting-pool
    entries are pairwise distinct (at most one entry per user id: a
    repeated find-partner removes the earlier entry before queueing
    again), and every entry refers to a user whose [inChat] flag is
    false. *)
Theorem waiting_pool_invariant (evs : list Event) :
  let s := run init evs in
  NoDup (pool_ids (users s) (waitingUsers s)) ∧
  (∀ l, l ∈ waitingUsers s → ∃ u, users s !! l = Some u ∧ inChat u = false).
Proof.
  intros s. pose proof (wf_run evs) as Hwf. fold s in Hwf.
  split; [apply (wf_pool_ids s Hwf) | apply (wf_pool s Hwf)].
Qed.

(** C10.  After any sequence of events, cancel-search on a connection
    with a registered user emits exactly search-cancelled to that
    connection, whether or not the user is in the waiting pool; on a
    connection without a registered user it changes nothing and emits
    nothing. *)
Theorem cancel_search_answers (evs : list Event) (sid : string) :
  let s := run init evs in
  (is_Some (Map_get sid (activeUsers s)) →
     (step s (CancelSearch sid)).2 = [mkEmit sid "search-cancelled" PNone]) ∧
  (Map_get sid (activeUsers s) = None →
     step s (CancelSearch sid) = (s, [])).
Proof.
  intros s. pose proof (wf_run evs) as Hwf. fold s in Hwf.
  simpl. unfold on_cancel_search. split.
  - intros [cu Hg]. rewrite Hg.
    by destruct (registered_allocated s sid cu Hwf Hg) as (c & -> & _).
  - by intros ->.
Qed.

(** ** Under the guarantees of the transport and of [uuidv4] *)

Lemma includes_spec x l : includes x l = true ↔ x ∈ l.
Proof.
  unfold includes. rewrite existsb_exists. split.
  - intros (y & Hy & ->%String.eqb_eq). by apply list_elem_of_In.
  - intros Hx. exists x. split; [by apply list_elem_of_In | apply String.eqb_refl].
Qed.

Lemma includes_false x l : includes x l = false ↔ x ∉ l.
Proof.
  rewrite <- includes_spec. destruct (includes x l); split; congruence.
Qed.

Lemma Map_set_keep {V} (m : list (string * V)) k v k' v' :
  k' ≠ k → (k', v') ∈ m → (k', v') ∈ Map_set k v m.
Proof.
  intros Hne. induction m as [|[k0 v0] m IH]; simpl; intros Hin; [inversion Hin|].
  destruct (String.eqb_spec k0 k) as [->|Hne'].
  - apply elem_of_cons in Hin as [[= -> ->]|Hin]; [done | by right].
  - apply elem_of_cons in Hin as [[= -> ->]|Hin]; [left | right; auto].
Qed.

Lemma uniq_init : uniq init.
Proof. split; simpl; [apply NoDup_nil_2 | intros l H; inversion H]. Qed.

Lemma uniq_connection s sid uid :
  uniq s → fresh s (Connection sid uid) = true → uniq (on_connection sid uid s).1.
Proof.
  intros [Hids Hpool]. simpl.
  intros [Hsid Huid]%andb_true_iff.
  apply negb_true_iff, includes_false in Hsid, Huid.
  split; simpl.
  - rewrite fmap_app. apply NoDup_app. repeat split; [done | | apply NoDup_singleton].
    intros x Hx ->%list_elem_of_singleton. done.
  - intros l Hl. destruct (Hpool l Hl) as [k Hk]. exists k.
    apply Map_set_keep; [|done]. intros ->. apply Hsid.
    apply list_elem_of_fmap. by exists (sid, l).
Qed.

Lemma uniq_find_partner s sid ints :
  wf s → uniq s → uniq (on_find_partner sid ints s).1.
Proof.
  intros Hwf [Hids Hpool].
  destruct (Map_get sid (activeUsers s)) as [cu|] eqn:Hg;
    [|by unfold on_find_partner; rewrite Hg].
  destruct (on_find_partner_cases s sid ints cu Hwf Hg)
    as (c0 & Hc0 & _ & _ & _ & _ & Hcases).
  pose proof (removeFromWaiting_sublist (users s) (id c0) (waitingUsers s)) as Hsub.
  destruct Hcases as [[_ ->]|(i & pl & p & _ & _ & _ & _ & _ & _ & ->)];
    split; simpl;
    rewrite ?ids_alter by (apply keeps_ident_match || apply keeps_ident_interests);
    try done.
  - intros l [Hl| ->%list_elem_of_singleton]%elem_of_app.
    + apply Hpool. by eapply elem_of_sublist.
    + exists sid. by apply Map_get_Some_elem.
  - intros l Hl%list_elem_of_delete_inv. apply Hpool. by eapply elem_of_sublist.
Qed.

Lemma uniq_cancel_search s sid : uniq s → uniq (on_cancel_search sid s).1.
Proof.
  intros [Hids Hpool]. unfold on_cancel_search.
  destruct (Map_get sid (activeUsers s)) as [cu|]; [|done].
  destruct (users s !! cu) as [c|]; [|done].
  split; simpl; [done|]. intros l Hl. apply Hpool.
  eapply elem_of_sublist; [done | apply removeFromWaiting_sublist].
Qed.

Lemma uniq_send_message s sid message roomId msgId now :
  uniq s → uniq (on_send_message sid message roomId msgId now s).1.
Proof.
  intros Hu. unfold on_send_message.
  destruct (Map_get sid (activeUsers s)) as [cu|]; [|done].
  by destruct (users s !! cu) as [c|].
Qed.

Lemma uniq_skip_partner s sid : uniq s → uniq (on_skip_partner sid s).1.
Proof.
  intros [Hids Hpool]. unfold on_skip_partner.
  destruct (Map_get sid (activeUsers s)) as [cu|]; [|done].
  destruct (users s !! cu) as [c|]; [|done].
  destruct (negb (truthy (partnerId c))); [done|].
  destruct (partnerEntry _ _ _) as [[k pl]|]; split; simpl;
    rewrite ?ids_alter by apply keeps_ident_clear; done.
Qed.

Lemma uniq_disconnect s sid : wf s → uniq s → uniq (on_disconnect sid s).1.
Proof.
  intros Hwf [Hids Hpool]. unfold on_disconnect.
  destruct (Map_get sid (activeUsers s)) as [cu|] eqn:Hg; [|by split].
  destruct (registered_allocated s sid cu Hwf Hg) as (c & Hc & _). rewrite Hc.
  assert (∀ l, l ∈ removeFromWaiting (users s) (id c) (waitingUsers s) →
               ∃ k, (k, l) ∈ Map_delete sid (activeUsers s)) as Hpool'.
  { intros l Hl.
    destruct (Hpool l) as [k Hk];
      [eapply elem_of_sublist; [done | apply removeFromWaiting_sublist]|].
    exists k. apply Map_delete_keep; [|done]. intros ->.
    apply (Map_get_elem _ _ _ (wf_keys s Hwf)) in Hk.
    assert (l = cu) as -> by congruence.
    eapply (pool_ids_not_in (users s)); [| |exact Hl].
    - unfold hid. by rewrite Hc.
    - apply removeFromWaiting_not_in, (wf_pool_ids s Hwf). }
  destruct (truthy (partnerId c));
    [destruct (partnerEntry _ _ _) as [[k pl]|]|]; split; simpl;
    rewrite ?ids_alter, ?removeFromWaiting_alter by apply keeps_ident_clear;
    done.
Qed.

Lemma uniq_step s ev : wf s → uniq s → fresh s ev = true → uniq (step s ev).1.
Proof.
  intros Hwf Hu Hfresh. destruct ev; simpl; try done.
  - by apply uniq_connection.
  - by apply uniq_find_partner.
  - by apply uniq_cancel_search.
  - by apply uniq_send_message.
  - by apply uniq_skip_partner.
  - by apply uniq_disconnect.
Qed.

Lemma valid_run s evs :
  wf s → uniq s → valid s evs = true → wf (run s evs) ∧ uniq (run s evs).
Proof.
  revert s. induction evs as [|ev evs IH]; intros s Hwf Hu Hv; simpl; [done|].
  simpl in Hv. apply andb_true_iff in Hv as [Hf Hv].
  apply IH; [by apply wf_step | by apply uniq_step | done].
Qed.

Lemma reachable_inv s : reachable s → wf s ∧ uniq s.
Proof.
  intros (evs & Hv & <-). apply valid_run; [apply wf_init | apply uniq_init | done].
Qed.

(** ** Tearing down a pairing *)

Lemma registered_key s k l cu :
  wf s → (k, l) ∈ activeUsers s → Map_get k (activeUsers s) = Some cu → l = cu.
Proof.
  intros Hwf Hin Hg. apply (Map_get_elem _ _ _ (wf_keys s Hwf)) in Hin. congruence.
Qed.

Lemma registered_same_loc s k k' l :
  wf s → (k, l) ∈ activeUsers s → (k', l) ∈ activeUsers s → k = k'.
Proof.
  intros Hwf H1 H2.
  destruct (wf_registry s Hwf k l H1) as (u & Hu & <-).
  destruct (wf_registry s Hwf k' l H2) as (u' & Hu' & <-). congruence.
Qed.

Lemma partnerEntry_live s k l p :
  wf s → uniq s → (k, l) ∈ activeUsers s → users s !! l = Some p →
  partnerEntry (users s) (Some (id p)) (activeUsers s) = Some (k, l).
Proof.
  intros Hwf Hu Hin Hp. simpl.
  destruct (Map_find _ _) as [[k' l']|] eqn:Hfind.
  - apply Map_find_Some in Hfind as [Hin' Hid]. apply has_id_hid in Hid.
    assert (l' = l) as ->.
    { eapply NoDup_lookup; [apply (uniq_ids s Hu) | |].
      - rewrite list_lookup_fmap. exact Hid.
      - by rewrite list_lookup_fmap, Hp. }
    destruct (wf_registry s Hwf k l Hin) as (u & Hu1 & <-).
    destruct (wf_registry s Hwf k' l Hin') as (u' & Hu2 & <-).
    congruence.
  - eapply Map_find_None in Hfind; [|done].
    unfold has_id in Hfind. rewrite Hp, String.eqb_refl in Hfind. done.
Qed.

Lemma partnerEntry_stale (h : list User) (au : list (string * nat)) pid :
  (∀ k l p, (k, l) ∈ au → h !! l = Some p → Some (id p) ≠ pid) →
  partnerEntry h pid au = None.
Proof.
  intros Hno. destruct pid as [a|]; [|done]. simpl.
  destruct (Map_find _ _) as [[k l]|] eqn:Hfind; [|done].
  apply Map_find_Some in Hfind as [Hin Hid]. unfold has_id in Hid.
  destruct (h !! l) as [p|] eqn:Hp; [|done].
  apply String.eqb_eq in Hid as <-. by destruct (Hno k l p).
Qed.

Lemma named_io_emit name name' p socks :
  name' ≠ name → named name (io_emit name' p socks) = [].
Proof.
  intros Hne. unfold named, io_emit.
  induction (socks.*1) as [|t ts IH]; [done|]. csimpl.
  rewrite filter_cons_False; [done | by simpl; congruence].
Qed.

Lemma named_app name out1 out2 :
  named name (out1 ++ out2) = named name out1 ++ named name out2.
Proof. apply filter_app. Qed.

Lemma opt_emit_connected k name p (socks : list (string * list string)) :
  k ∈ socks.*1 → opt_emit k name p socks = [mkEmit k name p].
Proof.
  intros [rs Hk]%Map_get_is_Some. unfold opt_emit. by rewrite Hk.
Qed.

(** C7, as the code has it.  In a reachable state, for a connection
    [sid] with a registered user [c]: with no partner, skip-partner does
    nothing at all and disconnect changes no user record and notifies no
    partner; with a partner id that no registered user carries, both
    handlers complete without any partner-disconnected notification;
    with a partner still registered under socket [k], both handlers
    clear [partnerId] and [inChat] of the partner and send exactly one
    partner-disconnected, to [k], which is not [sid]; skip-partner clears
    the requester too, while disconnect leaves the record of the leaving
    user as it was and removes the user instead: afterwards neither the
    registry nor the waiting pool refers to it. *)
Theorem teardown_safe (s : State) (sid : string) (cu : nat) (c : User) :
  reachable s →
  Map_get sid (activeUsers s) = Some cu →
  users s !! cu = Some c →
  let skip := step s (SkipPartner sid) in
  let disc := step s (Disconnect sid) in
  (truthy (partnerId c) = false →
     skip = (s, []) ∧
     users disc.1 = users s ∧ named "partner-disconnected" disc.2 = []) ∧
  (truthy (partnerId c) = true →
   (∀ k l p, (k, l) ∈ activeUsers s → users s !! l = Some p →
             Some (id p) ≠ partnerId c) →
     named "partner-disconnected" skip.2 = [] ∧
     users skip.1 !! cu = Some (clear_partner c) ∧
     named "partner-disconnected" disc.2 = [] ∧
     users disc.1 = users s) ∧
  (∀ k l p, truthy (partnerId c) = true →
     (k, l) ∈ activeUsers s → users s !! l = Some p →
     partnerId c = Some (id p) →
     k ≠ sid ∧
     users skip.1 !! l = Some (clear_partner p) ∧
     users skip.1 !! cu = Some (clear_partner c) ∧
     named "partner-disconnected" skip.2 =
       [mkEmit k "partner-disconnected" PNone] ∧
     users disc.1 !! l = Some (clear_partner p) ∧
     users disc.1 !! cu = Some c ∧
     Map_get sid (activeUsers disc.1) = None ∧
     named "partner-disconnected" disc.2 =
       [mkEmit k "partner-disconnected" PNone]) ∧
  ((∀ k, (k, cu) ∉ activeUsers disc.1) ∧ cu ∉ waitingUsers disc.1).
Proof.
  intros [Hwf Hu]%reachable_inv Hg Hc skip disc.
  assert ((∀ k, (k, cu) ∉ activeUsers disc.1) ∧ cu ∉ waitingUsers disc.1) as Hgone.
  { unfold disc. simpl. unfold on_disconnect. rewrite Hg, Hc.
    assert (cu ∉ removeFromWaiting (users s) (id c) (waitingUsers s)) as Hcu.
    { eapply (pool_ids_not_in (users s)); [by unfold hid; rewrite Hc|].
      apply removeFromWaiting_not_in, (wf_pool_ids s Hwf). }
    assert (∀ k, (k, cu) ∉ Map_delete sid (activeUsers s)) as Hreg.
    { intros k [Hne Hin]%Map_delete_elem; [|apply (wf_keys s Hwf)].
      apply Hne. apply (registered_same_loc s k sid cu Hwf Hin).
      by apply Map_get_Some_elem. }
    destruct (truthy (partnerId c));
      [destruct (partnerEntry _ _ _) as [[k pl]|]|]; simpl;
      rewrite ?removeFromWaiting_alter by apply keeps_ident_clear; done. }
  split; [|split; [|split; [|exact Hgone]]]; clear Hgone;
  unfold skip, disc; simpl; unfold on_skip_partner, on_disconnect;
  rewrite Hg, Hc; repeat split.
  - by rewrite H.
  - by rewrite H.
  - rewrite H. simpl. by apply named_io_emit.
  - rewrite H, (partnerEntry_stale _ _ _ H0). done.
  - rewrite H, (partnerEntry_stale _ _ _ H0). simpl.
    by rewrite list_lookup_alter_eq, Hc.
  - rewrite H, (partnerEntry_stale _ _ _ H0). simpl. by apply named_io_emit.
  - by rewrite H, (partnerEntry_stale _ _ _ H0).
  - intros ->. apply (Map_get_elem _ _ _ (wf_keys s Hwf)) in H0.
    assert (l = cu) as -> by congruence.
    assert (p = c) as -> by congruence.
    by apply (wf_not_self s Hwf cu c).
  - rewrite H, H2, (partnerEntry_live s k l p) by done. simpl.
    assert (l ≠ cu) as Hne.
    { intros ->. assert (p = c) as -> by congruence.
      by apply (wf_not_self s Hwf cu c). }
    by rewrite list_lookup_alter_ne, list_lookup_alter_eq, H1.
  - rewrite H, H2, (partnerEntry_live s k l p) by done. simpl.
    assert (l ≠ cu) as Hne.
    { intros ->. assert (p = c) as -> by congruence.
      by apply (wf_not_self s Hwf cu c). }
    by rewrite list_lookup_alter_eq, list_lookup_alter_ne, Hc.
  - rewrite H, H2, (partnerEntry_live s k l p) by done. simpl.
    rewrite opt_emit_connected; [done|].
    rewrite (wf_sockets s Hwf). apply list_elem_of_fmap. by exists (k, l).
  - rewrite H, H2, (partnerEntry_live s k l p) by done. simpl.
    by rewrite list_lookup_alter_eq, H1.
  - rewrite H, H2, (partnerEntry_live s k l p) by done. simpl.
    rewrite list_lookup_alter_ne; [done|].
    intros ->. assert (p = c) as -> by congruence.
    by apply (wf_not_self s Hwf cu c).
  - rewrite H. destruct (partnerEntry _ _ _) as [[? ?]|]; simpl;
      apply Map_get_None; intros (kv & Hk & Hin)%list_elem_of_fmap;
      destruct kv as [k' v']; simpl in Hk; subst k';
      by apply (Map_delete_elem _ _ _ _ (wf_keys s Hwf)) in Hin as [? _].
  - rewrite H, H2, (partnerEntry_live s k l p) by done. simpl.
    assert (k ≠ sid) as Hne.
    { intros ->. apply (Map_get_elem _ _ _ (wf_keys s Hwf)) in H0.
      assert (l = cu) as -> by congruence.
      assert (p = c) as -> by congruence.
      by apply (wf_not_self s Hwf cu c). }
    rewrite named_app, named_io_emit by done.
    rewrite opt_emit_connected; [done|].
    rewrite (Map_delete_keys_eq _ (activeUsers s)) by apply (wf_sockets s Hwf).
    apply list_elem_of_fmap. exists (k, l). split; [done|].
    by apply Map_delete_keep.
Qed.

(** C7 fails for disconnect: with the two users paired and the second
    still registered, the disconnect of the first leaves the first
    user's record with [inChat] true and the second as its partner. *)
Lemma disconnect_keeps_leaver_record :
  Map_get "sB" (activeUsers paired) = Some 1 ∧
  users paired !! 0 = Some (mkUser "A" "sA" None true (Some "B")) ∧
  users paired !! 1 = Some (mkUser "B" "sB" None true (Some "A")) ∧
  users (step paired (Disconnect "sA")).1 !! 0 =
    Some (mkUser "A" "sA" None true (Some "B")).
Proof. by vm_compute. Qed.

(** ** Establishing a pairing *)

(** C8.  In a reachable state a find-partner request either emits no
    partner-found at all and changes nobody's [partnerId], or pairs the
    requester [c] with a user [p] pulled from the waiting pool and emits
    exactly two partner-found notifications: the one with [initiator = true] to the requesting
    socket, the one with [initiator = false] to the socket of [p], which
    is a different socket. *)
Theorem initiator_is_requester (s : State) (sid : string)
    (ints : option (list string)) :
  reachable s →
  let r := step s (FindPartner sid ints) in
  (named "partner-found" r.2 = [] ∧
   partnerId <$> users r.1 = partnerId <$> users s) ∨
  ∃ cu pl c p,
    Map_get sid (activeUsers s) = Some cu ∧ users s !! cu = Some c ∧
    pl ∈ waitingUsers s ∧ (pl ∉ waitingUsers r.1) ∧ users s !! pl = Some p ∧
    Map_get (socketId p) (activeUsers s) = Some pl ∧
    socketId p ≠ sid ∧
    partnerId <$> users r.1 !! cu = Some (Some (id p)) ∧
    partnerId <$> users r.1 !! pl = Some (Some (id c)) ∧
    named "partner-found" r.2 =
      [mkEmit sid "partner-found"
         (PPartnerFound (id p) (roomOf (id c) (id p)) true);
       mkEmit (socketId p) "partner-found"
         (PPartnerFound (id c) (roomOf (id c) (id p)) false)].
Proof.
  intros [Hwf Hu]%reachable_inv r. unfold r. simpl.
  destruct (Map_get sid (activeUsers s)) as [cu|] eqn:Hg;
    [|left; by unfold on_find_partner; rewrite Hg].
  destruct (on_find_partner_cases s sid ints cu Hwf Hg)
    as (c0 & Hc0 & Hc1 & _ & _ & _ & Hcases).
  destruct Hcases as [[_ ->]|(i & pl & p & _ & Hi & Hp & Hne & Hplcu & Hgone & ->)].
  { left. split; [done|]. simpl. apply list_eq. intros l.
    rewrite !list_lookup_fmap, list_lookup_alter. case_decide; [|done].
    subst. by destruct (users s !! l). }
  right. exists cu, pl, c0, p.
  rewrite list_lookup_alter_ne in Hp by done.
  assert (pl ∈ waitingUsers s) as Hpl.
  { eapply elem_of_sublist; [|apply removeFromWaiting_sublist].
    by eapply list_elem_of_lookup_2. }
  destruct (uniq_pool s Hu pl Hpl) as [k Hk].
  destruct (wf_registry s Hwf k pl Hk) as (p' & Hp' & <-).
  assert (p' = p) as -> by congruence.
  pose proof (Map_get_elem _ _ _ (wf_keys s Hwf) Hk) as Hgp.
  assert (socketId p ≠ sid) as Hsid by (intros Heq; rewrite Heq in Hgp; congruence).
  repeat split; try done; simpl.
  - rewrite list_lookup_alter_ne, list_lookup_alter_eq, Hc1 by done. done.
  - rewrite list_lookup_alter_eq, !list_lookup_alter_ne, Hp by done. done.
  - rewrite opt_emit_connected; [done|]. rewrite (wf_sockets s Hwf).
    apply list_elem_of_fmap. by exists (socketId p, pl).
Qed.

(** ** The relay *)

Lemma elem_of_socket_to sid room name p socks e :
  e ∈ socket_to sid room name p socks ↔
  ∃ t, e = mkEmit t name p ∧ t ∈ members room socks ∧ t ≠ sid.
Proof.
  unfold socket_to. rewrite list_elem_of_fmap.
  split; intros (t & -> & Ht); exists t; (split; [done|]).
  - apply list_elem_of_filter in Ht as [Hne Ht]. split; [done|].
    by apply String.eqb_neq.
  - apply list_elem_of_filter. destruct Ht as [Ht Hne].
    split; [by apply String.eqb_neq | done].
Qed.

Lemma elem_of_io_to room name p socks e :
  e ∈ io_to room name p socks ↔
  ∃ t, e = mkEmit t name p ∧ t ∈ members room socks.
Proof. unfold io_to. by rewrite list_elem_of_fmap. Qed.

Lemma relayed_step s ev sid room name p :
  relayed ev = Some (sid, room, name, p) →
  step s ev = (s, socket_to sid room name p (sockets s)).
Proof. destruct ev; simpl; intros [= <- <- <- <-]; done. Qed.

(** C3, as the code has it.  Every relay event other than send-message
    leaves the state alone and is delivered exactly to the sockets in the
    named room other than the sender.  send-message from a registered
    user leaves the state alone and is delivered, as receive-message
    stamped with the sender's user id, to every socket in the named room,
    the sender's own included when it is in the room. *)
Theorem relay_delivery (s : State) (ev : Event) :
  (∀ sid room name p,
     relayed ev = Some (sid, room, name, p) →
     (step s ev).1 = s ∧
     (∀ e, e ∈ (step s ev).2 ↔
           ∃ t, e = mkEmit t name p ∧ t ∈ members room (sockets s) ∧ t ≠ sid)) ∧
  (∀ sid message room msgId now cu c,
     ev = SendMessage sid message room msgId now →
     Map_get sid (activeUsers s) = Some cu → users s !! cu = Some c →
     (step s ev).1 = s ∧
     (∀ e, e ∈ (step s ev).2 ↔
           ∃ t, e = mkEmit t "receive-message" (PMessage msgId (id c) message now) ∧
                t ∈ members room (sockets s))).
Proof.
  split.
  - intros sid room name p Hr. rewrite (relayed_step s ev sid room name p Hr).
    split; [done|]. intros e. apply elem_of_socket_to.
  - intros sid message room msgId now cu c -> Hg Hc. simpl.
    unfold on_send_message. rewrite Hg, Hc. split; [done|].
    intros e. apply elem_of_io_to.
Qed.

(** C3 fails for send-message: with the two users paired, a message sent
    by the first one comes back to its own socket. *)
Lemma send_message_reaches_sender :
  ¬ (∀ e, e ∈ (step paired (SendMessage "sA" "hi" "room-B-A" "m1" 0)).2 →
          target e ≠ "sA").
Proof.
  intros H.
  apply (H (mkEmit "sA" "receive-message" (PMessage "m1" "A" "hi" 0))); [|done].
  vm_compute. by left.
Qed.

(** ** Events on a connection without a registered user *)

(** What the handlers themselves do when they are run for a socket
    without a registered user: find-partner, cancel-search, send-message
    and skip-partner return at once; the relay handlers have no such
    check and send on to the other sockets of the room named; disconnect
    changes neither the users, the pool nor the registry, and broadcasts
    the online count. *)
Theorem unknown_connection (s : State) (ev : Event) :
  Map_get (sender ev) (activeUsers s) = None →
  (guarded ev = true → step s ev = (s, [])) ∧
  (∀ sid room name p, relayed ev = Some (sid, room, name, p) →
     step s ev = (s, socket_to sid room name p (sockets s))) ∧
  (∀ sid, ev = Disconnect sid →
     users (step s ev).1 = users s ∧
     waitingUsers (step s ev).1 = waitingUsers s ∧
     activeUsers (step s ev).1 = activeUsers s ∧
     (step s ev).2 =
       io_emit "online-count" (POnlineCount (length (activeUsers s)))
         (Map_delete sid (sockets s))).
Proof.
  intros Hg. repeat split.
  - destruct ev; simpl in *; try done.
    + unfold on_find_partner. by rewrite Hg.
    + unfold on_cancel_search. by rewrite Hg.
    + unfold on_send_message. by rewrite Hg.
    + unfold on_skip_partner. by rewrite Hg.
  - intros sid room name p. apply relayed_step.
  - subst ev. simpl in *. unfold on_disconnect. by rewrite Hg.
  - subst ev. simpl in *. unfold on_disconnect. by rewrite Hg.
  - subst ev. simpl in *. unfold on_disconnect. by rewrite Hg.
  - subst ev. simpl in *. unfold on_disconnect. by rewrite Hg.
Qed.

(** The typing handler run for the socket of a user that has
    disconnected would still send to the former partner; the transport
    never runs it for such a socket. *)
Lemma late_typing_is_relayed :
  Map_get "sB" (activeUsers (run paired [Disconnect "sB"])) = None ∧
  (step (run paired [Disconnect "sB"]) (Typing "sB" "room-B-A" "true")).2 =
    [mkEmit "sA" "partner-typing" (PTyping "true")].
Proof. by vm_compute. Qed.




(** ** Where the server-filled fields come from *)

Lemma elem_of_opt_emit k name p socks e :
  e ∈ opt_emit k name p socks → e = mkEmit k name p.
Proof.
  unfold opt_emit. destruct (Map_get k socks); [|by intros H; inversion H].
  by intros ->%list_elem_of_singleton.
Qed.

Lemma elem_of_io_emit name p socks e :
  e ∈ io_emit name p socks → ∃ t, e = mkEmit t name p.
Proof. unfold io_emit. intros (t & -> & _)%list_elem_of_fmap. eauto. Qed.

Ltac emitted :=
  repeat match goal with
  | H : _ ∈ snd (_, _) |- _ => progress simpl in H
  | H : _ ∈ _ ++ _ |- _ => apply elem_of_app in H as [H|H]
  | H : _ ∈ socket_emit _ _ _ |- _ => apply list_elem_of_singleton in H; subst
  | H : _ ∈ opt_emit _ _ _ _ |- _ => apply elem_of_opt_emit in H; subst
  | H : _ ∈ io_emit _ _ _ |- _ => apply elem_of_io_emit in H as (? & ->)
  | H : _ ∈ io_to _ _ _ _ |- _ => apply elem_of_io_to in H as (? & -> & ?)
  | H : _ ∈ socket_to _ _ _ _ _ |- _ =>
      apply elem_of_socket_to in H as (? & -> & ? & ?)
  | H : _ ∈ [] |- _ => inversion H
  | H : _ ∈ stamped _ |- _ => progress simpl in H
  | H : _ ∈ _ :: _ |- _ => apply elem_of_cons in H as [->|H]
  end.

Lemma id_elem_of (h : list User) (l : nat) u : h !! l = Some u → id u ∈ id <$> h.
Proof. intros H. apply list_elem_of_fmap. exists u. eauto using list_elem_of_lookup_2. Qed.

(** C9, as the code has it.  A server-filled string of an emitted
    payload is the sending socket's id only in the [from] field of a
    webrtc-signal relayed to another socket; every other one is the id of
    a user, a room label built from two user ids, or the message id of a
    send-message. *)
Theorem stamped_origin (s : State) (ev : Event) (e : Emit) (x : string) :
  e ∈ (step s ev).2 → x ∈ stamped (payload e) →
  (∃ signal room, ev = WebrtcSignal x signal room ∧
                  payload e = PSignal signal x ∧ target e ≠ x) ∨
  x ∈ id <$> users (step s ev).1 ∨
  (∃ a b, a ∈ id <$> users (step s ev).1 ∧ b ∈ id <$> users (step s ev).1 ∧
          x = roomOf a b) ∨
  (∃ sid message room now, ev = SendMessage sid message room x now).
Proof.
  intros He Hx. destruct ev; simpl in *.
  - (* connection *)
    unfold on_connection in *. simpl in *. emitted.
    right; left. rewrite fmap_app. apply elem_of_app. right. by left.
  - (* find-partner *)
    unfold on_find_partner in *.
    destruct (Map_get sid (activeUsers s)) as [cu|]; [|emitted].
    destruct (users s !! cu) as [c0|] eqn:Hc0; [|emitted].
    destruct (findPartner _ _ _) as [[pl|] w2]; [|simpl in *; emitted].
    destruct (alter _ cu (users s) !! pl) as [p|] eqn:Hp; [|emitted].
    assert (id c0 ∈ id <$> users s) as Hc by by eapply id_elem_of.
    assert (id p ∈ id <$> users s) as Hpi.
    { apply id_elem_of in Hp. by rewrite ids_alter in Hp by by intros ?. }
    simpl in *. rewrite !ids_alter by by intros ?.
    emitted; eauto 10.
  - unfold on_cancel_search in *.
    destruct (Map_get sid (activeUsers s)) as [cu|]; [|emitted].
    destruct (users s !! cu) as [c0|]; simpl in *; emitted.
  - emitted. left. eauto.
  - unfold on_send_message in *.
    destruct (Map_get sid (activeUsers s)) as [cu|]; [|emitted].
    destruct (users s !! cu) as [c0|] eqn:Hc0; simpl in *; emitted; [eauto 10|].
    right; left. by eapply id_elem_of.
  - emitted.
  - emitted.
  - emitted.
  - emitted.
  - emitted.
  - emitted.
  - emitted.
  - emitted.
  - emitted.
  - unfold on_skip_partner in *.
    destruct (Map_get sid (activeUsers s)) as [cu|]; [|emitted].
    destruct (users s !! cu) as [c0|]; [|emitted].
    destruct (negb (truthy (partnerId c0))); [emitted|].
    destruct (partnerEntry _ _ _) as [[k pl]|]; simpl in *; emitted.
  - unfold on_disconnect in *.
    destruct (Map_get sid (activeUsers s)) as [cu|]; [|simpl in *; emitted].
    destruct (users s !! cu) as [c0|]; [|simpl in *; emitted].
    destruct (truthy (partnerId c0));
      [destruct (partnerEntry _ _ _) as [[k pl]|]|]; simpl in *; emitted.
Qed.

(** C9 fails for webrtc-signal: with the two users paired, a signal sent
    by the first one reaches the second one's socket with the first
    one's [socketId] in its [from] field. *)
Lemma webrtc_signal_exposes_socketId :
  socketId <$> users paired !! 0 = Some "sA" ∧
  mkEmit "sB" "webrtc-signal" (PSignal "offer" "sA")
    ∈ (step paired (WebrtcSignal "sA" "offer" "room-B-A")).2 ∧
  "sA" ∈ stamped (PSignal "offer" "sA").
Proof.
  split; [done|]. split; [vm_compute|simpl]; by left.
Qed.

(** ** find-partner from a user that is still paired *)

(** C1 fails on the code.  With only connect and find-partner events,
    all three users stay registered, the second still has the first as
    its partner, and the first now has the third. *)
Theorem rematch_breaks_symmetry :
  valid init rematch = true ∧
  partnerId <$> users (run init rematch) !! 0 = Some (Some "C") ∧
  partnerId <$> users (run init rematch) !! 1 = Some (Some "A") ∧
  ¬ partner_symmetric (run init rematch).
Proof.
  repeat split; try done. intros H.
  specialize (H "sA" 0 "sB" 1
                (mkUser "A" "sA" None true (Some "C"))
                (mkUser "B" "sB" None true (Some "A"))).
  simpl in H.
  destruct H as [_ H]; [vm_compute; by left | vm_compute; right; by left
                       | done | done |].
  by specialize (H eq_refl).
Qed.

(** C4 fails on the code.  After the same request with nobody waiting,
    the first user is registered and queued with [inChat] false while
    its [partnerId] still names the second user. *)
Theorem requeue_keeps_partnerId :
  valid init requeue = true ∧
  users (run init requeue) !! 0 = Some (mkUser "A" "sA" None false (Some "B")) ∧
  waitingUsers (run init requeue) = [0] ∧
  ¬ partner_iff_inChat (run init requeue).
Proof.
  repeat split; try done. intros H.
  specialize (H "sA" 0 (mkUser "A" "sA" None false (Some "B"))).
  destruct H as [H _]; [vm_compute; by left | done |].
  by specialize (H (mk_is_Some _ _ eq_refl)).
Qed.

(** ** Polite traces *)

Lemma uniq_loc s l l' u v :
  uniq s → users s !! l = Some u → users s !! l' = Some v → id u = id v → l = l'.
Proof.
  intros Hu Hl Hl' Heq. eapply NoDup_lookup; [apply (uniq_ids s Hu) | |].
  - by rewrite list_lookup_fmap, Hl.
  - by rewrite list_lookup_fmap, Hl', Heq.
Qed.

Lemma linked_falsy s l u :
  linked s → registered s l u → truthy (partnerId u) = false → partnerId u = None.
Proof.
  intros Hl Hr Ht. destruct (partnerId u) as [x|] eqn:Hp; [|done].
  destruct (linked_back s Hl l u x Hr Hp) as (l' & v & [_ Hv] & <- & _).
  apply (linked_ids s Hl) in Hv. simpl in Ht.
  apply negb_false_iff, String.eqb_eq in Ht. done.
Qed.

Lemma linked_symmetric s : uniq s → linked s → partner_symmetric s.
Proof.
  intros Hu Hl ka la kb lb a b Ha Hb Hla Hlb.
  assert (registered s la a) as Hra by (split; eauto).
  assert (registered s lb b) as Hrb by (split; eauto).
  split; intros Hp.
  - destruct (linked_back s Hl la a _ Hra Hp) as (l' & v & [_ Hv] & Hid & Hback).
    by rewrite (uniq_loc s l' lb v b Hu Hv Hlb Hid) in Hv; simplify_eq.
  - destruct (linked_back s Hl lb b _ Hrb Hp) as (l' & v & [_ Hv] & Hid & Hback).
    by rewrite (uniq_loc s l' la v a Hu Hv Hla Hid) in Hv; simplify_eq.
Qed.

Lemma linked_init : linked init.
Proof.
  split; intros l u; [intros H | intros x [_ H] | intros [_ H]];
    by destruct l.
Qed.

Lemma linked_connection s sid uid :
  wf s → linked s → fresh s (Connection sid uid) = true →
  polite s (Connection sid uid) = true →
  linked (on_connection sid uid s).1.
Proof.
  intros Hwf [Hids Hback HinChat]. simpl.
  intros [Hsid _]%andb_true_iff Huid.
  apply negb_true_iff, includes_false in Hsid.
  apply negb_true_iff, String.eqb_neq in Huid.
  assert (∀ l u, registered (on_connection sid uid s).1 l u →
                 registered s l u ∨ partnerId u = None ∧ inChat u = false) as Hold.
  { intros l u [[k Hk] Hu]. simpl in *.
    apply Map_set_elem in Hk as [[-> ->]|Hk].
    - right. rewrite lookup_app_r, Nat.sub_diag in Hu by done.
      by injection Hu as <-.
    - left. split; [eauto|]. destruct (wf_registry s Hwf k l Hk) as (u' & Hu' & _).
      by rewrite (lookup_app_l_Some _ _ _ _ Hu') in Hu; simplify_eq. }
  assert (∀ l u, registered s l u → registered (on_connection sid uid s).1 l u)
    as Hnew.
  { intros l u [[k Hk] Hu]. split; simpl; [|by apply lookup_app_l_Some].
    exists k. apply Map_set_keep; [|done]. intros ->. apply Hsid.
    apply list_elem_of_fmap. by exists (sid, l). }
  split.
  - intros l u. simpl. rewrite lookup_app_Some.
    intros [Hu|[_ Hu]]; [apply (Hids l u Hu)|].
    apply list_lookup_singleton_Some in Hu as [_ <-]. done.
  - intros l u x Hr Hp. destruct (Hold l u Hr) as [Hr'|[Hn _]]; [|congruence].
    destruct (Hback l u x Hr' Hp) as (l' & v & Hv & Hid & Hb).
    exists l', v. split; [by apply Hnew | done].
  - intros l u Hr.
    destruct (Hold l u Hr) as [Hr'|[-> ->]]; [apply (HinChat l u Hr')|].
    split; [by intros [? ?] | done].
Qed.

Lemma ids_nonempty_alter (f : User → User) l0 (h : list User) :
  keeps_ident f →
  (∀ l u, h !! l = Some u → id u ≠ "") →
  ∀ l u, alter f l0 h !! l = Some u → id u ≠ "".
Proof.
  intros Hf H l u. rewrite list_lookup_alter. case_decide; [|apply H].
  subst. destruct (h !! l) as [u0|] eqn:Hu0; simpl; [|done].
  intros [= <-]. destruct (Hf u0) as [-> _]. by eapply H.
Qed.

Lemma linked_find_partner s sid ints :
  wf s → uniq s → linked s → polite s (FindPartner sid ints) = true →
  linked (on_find_partner sid ints s).1.
Proof.
  intros Hwf Hu Hl Hpol.
  destruct (Map_get sid (activeUsers s)) as [cu|] eqn:Hg;
    [|by unfold on_find_partner; rewrite Hg].
  destruct (on_find_partner_cases s sid ints cu Hwf Hg)
    as (c0 & Hc0 & Hc1 & _ & _ & _ & Hcases).
  simpl in Hpol. rewrite Hg, Hc0 in Hpol. apply negb_true_iff in Hpol.
  assert (registered s cu c0) as Hrc.
  { split; [|done]. exists sid. by apply Map_get_Some_elem. }
  pose proof (linked_falsy s cu c0 Hl Hrc Hpol) as Hnone.
  destruct Hl as [Hids Hback HinChat].
  destruct Hcases as [[_ ->]|(i & pl & p & _ & Hi & Hp & Hne & Hplcu & _ & ->)].
  - (* queued *)
    assert (∀ l u, registered
              (mkState (alter (λ u, set_inChat false (set_interests ints u)) cu (users s))
                 (removeFromWaiting (users s) (id c0) (waitingUsers s) ++ [cu])
                 (activeUsers s) (sockets s)) l u →
            (l ≠ cu ∧ registered s l u) ∨
            (l = cu ∧ partnerId u = None ∧ inChat u = false)) as Hold.
    { intros l u [Hk Hlu]. simpl in *. rewrite list_lookup_alter in Hlu.
      case_decide; [right | left; by split].
      subst. rewrite Hc0 in Hlu. injection Hlu as <-. by simpl. }
    split; simpl.
    + by apply ids_nonempty_alter.
    + intros l u x Hr Hp. destruct (Hold l u Hr) as [[Hne Hr']|(_ & Hn & _)];
        [|congruence].
      destruct (Hback l u x Hr' Hp) as (l' & v & [Hk Hv] & Hid & Hb).
      exists l', v. repeat split; try done. simpl.
      rewrite list_lookup_alter_ne; [done|]. intros <-. congruence.
    + intros l u Hr. destruct (Hold l u Hr) as [[Hne Hr']|(_ & -> & ->)];
        [apply (HinChat l u Hr')|].
      split; [by intros [? ?] | done].
  - (* paired *)
    rewrite list_lookup_alter_ne in Hp by done.
    assert (pl ∈ waitingUsers s) as Hpl.
    { eapply elem_of_sublist; [|apply removeFromWaiting_sublist].
      by eapply list_elem_of_lookup_2. }
    assert (registered s pl p) as Hrp by (split; [apply (uniq_pool s Hu pl Hpl) | done]).
    assert (partnerId p = None) as Hpnone.
    { destruct (wf_pool s Hwf pl Hpl) as (p' & Hp' & Hchat).
      assert (p' = p) as -> by congruence.
      destruct (partnerId p) eqn:E; [|done].
      assert (inChat p = true); [|congruence].
      apply (HinChat pl p Hrp). rewrite E. by eexists. }
    cbn [fst]. set (s' := mkState _ _ _ _).
    assert (users s' !! cu =
            Some (set_inChat true (set_partnerId (Some (id p))
                    (set_inChat false (set_interests ints c0))))) as Hcu'.
    { unfold s'. simpl.
      by rewrite list_lookup_alter_ne, list_lookup_alter_eq, Hc1 by done. }
    assert (users s' !! pl =
            Some (set_inChat true (set_partnerId (Some (id c0)) p))) as Hpl'.
    { unfold s'. simpl.
      by rewrite list_lookup_alter_eq, !list_lookup_alter_ne, Hp by done. }
    assert (∀ l, l ≠ cu → l ≠ pl → users s' !! l = users s !! l) as Hother.
    { intros l ? ?. unfold s'. simpl. by rewrite !list_lookup_alter_ne by done. }
    split.
    + unfold s'. simpl.
      repeat (apply ids_nonempty_alter; [by intros ?|]). done.
    + intros l u x [Hk Hlu] Hpx.
      destruct (decide (l = cu)) as [->|Hlcu];
        [|destruct (decide (l = pl)) as [->|Hlpl]].
      * rewrite Hcu' in Hlu. injection Hlu as <-. simpl in Hpx.
        injection Hpx as <-.
        exists pl, (set_inChat true (set_partnerId (Some (id c0)) p)).
        split; [|done]. split; [apply Hrp | done].
      * rewrite Hpl' in Hlu. injection Hlu as <-. simpl in Hpx.
        injection Hpx as <-.
        exists cu, (set_inChat true (set_partnerId (Some (id p))
                      (set_inChat false (set_interests ints c0)))).
        split; [|done]. split; [apply Hrc | done].
      * rewrite Hother in Hlu by done.
        destruct (Hback l u x (conj Hk Hlu) Hpx) as (l' & v & [Hk' Hv] & Hid & Hb).
        exists l', v. repeat split; try done.
        rewrite Hother; [done | intros ->; congruence | intros ->; congruence].
    + intros l u [Hk Hlu].
      destruct (decide (l = cu)) as [->|Hlcu];
        [|destruct (decide (l = pl)) as [->|Hlpl]].
      * rewrite Hcu' in Hlu. injection Hlu as <-. simpl. split; [done | by eexists].
      * rewrite Hpl' in Hlu. injection Hlu as <-. simpl. split; [done | by eexists].
      * rewrite Hother in Hlu by done. apply (HinChat l u (conj Hk Hlu)).
Qed.

Lemma linked_ext s s' :
  users s' = users s → activeUsers s' = activeUsers s → linked s → linked s'.
Proof.
  intros Hu Ha [Hids Hback HinChat].
  split; unfold registered in *; rewrite ?Hu, ?Ha; done.
Qed.

(** In a linked state the partner of a registered user with a partner:
    registered, somewhere else, pointing back, and found by the lookup
    of the teardown handlers. *)
Lemma linked_partner s cu c x :
  wf s → uniq s → linked s → registered s cu c → partnerId c = Some x →
  truthy (partnerId c) = true ∧
  ∃ k l' v, (k, l') ∈ activeUsers s ∧ users s !! l' = Some v ∧ l' ≠ cu ∧
            x = id v ∧ partnerId v = Some (id c) ∧
            partnerEntry (users s) (partnerId c) (activeUsers s) = Some (k, l').
Proof.
  intros Hwf Hu Hl Hrc Hp.
  destruct (linked_back s Hl cu c x Hrc Hp) as (l' & v & [[k Hk] Hv] & <- & Hb).
  split.
  - rewrite Hp. simpl. apply negb_true_iff, String.eqb_neq.
    by apply (linked_ids s Hl l' v).
  - exists k, l', v. repeat split; try done.
    + intros ->. destruct Hrc as [_ Hc]. assert (v = c) as -> by congruence.
      by apply (wf_not_self s Hwf cu c).
    + rewrite Hp. by apply partnerEntry_live.
Qed.

Lemma others_partner s cu c l' v l u l2 w :
  uniq s → users s !! cu = Some c → users s !! l' = Some v →
  partnerId c = Some (id v) → partnerId v = Some (id c) →
  users s !! l = Some u → l ≠ cu → l ≠ l' →
  users s !! l2 = Some w → partnerId w = Some (id u) →
  l2 ≠ cu ∧ l2 ≠ l'.
Proof.
  intros Hu Hc Hv Hpc Hpv Hlu Hn1 Hn2 Hw Hpw. split; intros ->.
  - assert (w = c) as -> by congruence.
    apply Hn2. apply (uniq_loc s l l' u v Hu Hlu Hv). congruence.
  - assert (w = v) as -> by congruence.
    apply Hn1. apply (uniq_loc s l cu u c Hu Hlu Hc). congruence.
Qed.

Lemma linked_skip_partner s sid :
  wf s → uniq s → linked s → linked (on_skip_partner sid s).1.
Proof.
  intros Hwf Hu Hl. unfold on_skip_partner.
  destruct (Map_get sid (activeUsers s)) as [cu|] eqn:Hg; [|done].
  destruct (registered_allocated s sid cu Hwf Hg) as (c & Hc & _). rewrite Hc.
  assert (registered s cu c) as Hrc.
  { split; [|done]. exists sid. by apply Map_get_Some_elem. }
  destruct (partnerId c) as [x|] eqn:Hp; [|done].
  destruct (linked_partner s cu c x Hwf Hu Hl Hrc Hp)
    as (Ht & k & l' & v & Hk & Hv & Hne & -> & Hpv & Hpe).
  rewrite Hp in Ht, Hpe. rewrite Ht, Hpe. cbn [negb fst].
  set (s' := mkState _ _ _ _).
  assert (users s' !! cu = Some (clear_partner c)) as Hcu'.
  { unfold s'. simpl. by rewrite list_lookup_alter_eq, list_lookup_alter_ne, Hc. }
  assert (users s' !! l' = Some (clear_partner v)) as Hl'.
  { unfold s'. simpl. by rewrite list_lookup_alter_ne, list_lookup_alter_eq, Hv. }
  assert (∀ l, l ≠ cu → l ≠ l' → users s' !! l = users s !! l) as Hother.
  { intros l ? ?. unfold s'. simpl. by rewrite !list_lookup_alter_ne. }
  destruct Hl as [Hids Hback HinChat]. split.
  - unfold s'. simpl.
    repeat (apply ids_nonempty_alter; [apply keeps_ident_clear|]). done.
  - intros l u y [Hkl Hlu] Hpy.
    destruct (decide (l = cu)) as [->|Hlcu]; [rewrite Hcu' in Hlu; by simplify_eq|].
    destruct (decide (l = l')) as [->|Hll']; [rewrite Hl' in Hlu; by simplify_eq|].
    rewrite Hother in Hlu by done.
    destruct (Hback l u y (conj Hkl Hlu) Hpy) as (l2 & w & [Hk2 Hw] & Hid & Hb).
    destruct (others_partner s cu c l' v l u l2 w) as [? ?]; try done.
    exists l2, w. repeat split; try done. by rewrite Hother.
  - intros l u [Hkl Hlu].
    destruct (decide (l = cu)) as [->|Hlcu].
    { rewrite Hcu' in Hlu. injection Hlu as <-. split; [by intros [? ?] | done]. }
    destruct (decide (l = l')) as [->|Hll'].
    { rewrite Hl' in Hlu. injection Hlu as <-. split; [by intros [? ?] | done]. }
    rewrite Hother in Hlu by done. apply (HinChat l u (conj Hkl Hlu)).
Qed.

Lemma linked_disconnect s sid :
  wf s → uniq s → linked s → linked (on_disconnect sid s).1.
Proof.
  intros Hwf Hu Hl. unfold on_disconnect.
  destruct (Map_get sid (activeUsers s)) as [cu|] eqn:Hg;
    [|by apply (linked_ext s)].
  destruct (registered_allocated s sid cu Hwf Hg) as (c & Hc & _). rewrite Hc.
  assert (registered s cu c) as Hrc.
  { split; [|done]. exists sid. by apply Map_get_Some_elem. }
  assert (∀ k l, (k, l) ∈ Map_delete sid (activeUsers s) →
                 (k, l) ∈ activeUsers s ∧ l ≠ cu) as Hdel.
  { intros k l [Hne Hin]%Map_delete_elem; [|apply (wf_keys s Hwf)].
    split; [done|]. intros ->. apply Hne.
    apply (registered_same_loc s k sid cu Hwf Hin). by apply Map_get_Some_elem. }
  assert (∀ k l, (k, l) ∈ activeUsers s → l ≠ cu →
                 (k, l) ∈ Map_delete sid (activeUsers s)) as Hkeep.
  { intros k l Hin Hne. apply Map_delete_keep; [|done]. intros ->.
    apply Hne. by eapply registered_key. }
  destruct (partnerId c) as [x|] eqn:Hp.
  - destruct (linked_partner s cu c x Hwf Hu Hl Hrc Hp)
      as (Ht & k & l' & v & Hk & Hv & Hne & -> & Hpv & Hpe).
    rewrite Hp in Ht, Hpe. rewrite Ht, Hpe. cbn [fst].
    set (s' := mkState _ _ _ _).
    assert (users s' !! l' = Some (clear_partner v)) as Hl'.
    { unfold s'. simpl. by rewrite list_lookup_alter_eq, Hv. }
    assert (∀ l, l ≠ l' → users s' !! l = users s !! l) as Hother.
    { intros l ?. unfold s'. simpl. by rewrite !list_lookup_alter_ne. }
    destruct Hl as [Hids Hback HinChat]. split.
    + unfold s'. simpl. apply ids_nonempty_alter; [apply keeps_ident_clear | done].
    + intros l u y [[kl Hkl] Hlu] Hpy. apply Hdel in Hkl as [Hkl Hlcu].
      destruct (decide (l = l')) as [->|Hll']; [rewrite Hl' in Hlu; by simplify_eq|].
      rewrite Hother in Hlu by done.
      destruct (Hback l u y (conj (ex_intro _ kl Hkl) Hlu) Hpy)
        as (l2 & w & [[k2 Hk2] Hw] & Hid & Hb).
      destruct (others_partner s cu c l' v l u l2 w) as [? ?]; try done.
      exists l2, w. repeat split; try done; [|by rewrite Hother].
      exists k2. by apply Hkeep.
    + intros l u [[kl Hkl] Hlu]. apply Hdel in Hkl as [Hkl Hlcu].
      destruct (decide (l = l')) as [->|Hll'].
      { rewrite Hl' in Hlu. injection Hlu as <-. split; [by intros [? ?] | done]. }
      rewrite Hother in Hlu by done.
      apply (HinChat l u (conj (ex_intro _ kl Hkl) Hlu)).
  - cbn [truthy fst]. set (s' := mkState _ _ _ _).
    destruct Hl as [Hids Hback HinChat]. split; [done| |].
    + intros l u y [[kl Hkl] Hlu] Hpy. apply Hdel in Hkl as [Hkl Hlcu].
      destruct (Hback l u y (conj (ex_intro _ kl Hkl) Hlu) Hpy)
        as (l2 & w & [[k2 Hk2] Hw] & Hid & Hb).
      exists l2, w. repeat split; try done.
      exists k2. apply Hkeep; [done|]. intros ->. simpl in *. congruence.
    + intros l u [[kl Hkl] Hlu]. apply Hdel in Hkl as [Hkl Hlcu].
      apply (HinChat l u (conj (ex_intro _ kl Hkl) Hlu)).
Qed.

Lemma linked_step s ev :
  wf s → uniq s → linked s → fresh s ev = true → polite s ev = true →
  linked (step s ev).1.
Proof.
  intros Hwf Hu Hl Hf Hp. destruct ev; try done.
  - by apply linked_connection.
  - by apply linked_find_partner.
  - simpl. unfold on_cancel_search.
    destruct (Map_get sid (activeUsers s)) as [cu|]; [|done].
    destruct (users s !! cu) as [c|]; [|done]. by apply (linked_ext s).
  - simpl. unfold on_send_message.
    destruct (Map_get sid (activeUsers s)) as [cu|]; [|done].
    by destruct (users s !! cu) as [c|].
  - by apply linked_skip_partner.
  - by apply linked_disconnect.
Qed.

Lemma polite_run s evs :
  wf s → uniq s → linked s → polite_trace s evs = true →
  uniq (run s evs) ∧ linked (run s evs).
Proof.
  revert s. induction evs as [|ev evs IH]; intros s Hwf Hu Hl Hv; simpl; [done|].
  simpl in Hv. apply andb_true_iff in Hv as [[Hf Hp]%andb_true_iff Hv].
  apply IH; [by apply wf_step | by apply uniq_step | by apply linked_step | done].
Qed.

(** Along polite traces the two invariants that C1 and C4 ask for do
    hold: the code loses them only when find-partner comes from a user
    that is still paired. *)
Theorem polite_invariants (evs : list Event) :
  polite_trace init evs = true →
  partner_symmetric (run init evs) ∧ partner_iff_inChat (run init evs).
Proof.
  intros Hv.
  destruct (polite_run init evs wf_init uniq_init linked_init Hv) as [Hu Hl].
  split; [by apply linked_symmetric|].
  intros k l u Hk Hlu. apply (linked_inChat _ Hl l u). split; eauto.
Qed.

Lemma polite_invariants_witness :
  polite_trace init (pairing ++ [SkipPartner "sA"; FindPartner "sA" None]) = true ∧
  partner_symmetric (run init (pairing ++ [SkipPartner "sA"; FindPartner "sA" None])).
Proof.
  split; [done|].
  by apply (polite_invariants (pairing ++ [SkipPartner "sA"; FindPartner "sA" None])).
Defined.

(** ** Instances *)

(** The scenario of the specification after the two users are paired:
    the first sends a message, the second disconnects, the first asks
    for a partner again.  The order in which the two sockets of the room
    get the message is the transport's and is left open. *)
Example scenario_after_pairing :
  ∃ delivered,
    delivered ≡ₚ [mkEmit "sA" "receive-message" (PMessage "m1" "A" "hi" 7);
                  mkEmit "sB" "receive-message" (PMessage "m1" "A" "hi" 7)] ∧
    trace paired [SendMessage "sA" "hi" "room-B-A" "m1" 7; Disconnect "sB";
                  FindPartner "sA" (Some ["music"])] =
    delivered ++
    [mkEmit "sA" "partner-disconnected" PNone;
     mkEmit "sA" "online-count" (POnlineCount 1);
     mkEmit "sA" "waiting" PNone].
Proof. eexists. split; [|reflexivity]. done. Qed.

Lemma reachable_paired : reachable paired.
Proof. exists pairing. by split. Defined.

Lemma findPartner_two_tier_witness :
  let h := [mkUser "A" "sA" None false None;
            mkUser "B" "sB" (Some ["music"]) false None;
            mkUser "C" "sC" (Some ["chess"; "music"]) false None] in
  let user := mkUser "D" "sD" (Some ["music"; "films"]) false None in
  findPartner h user [0; 1; 2] = (Some 1, [0; 2]) ∧
  findPartner h (set_interests None user) [0; 1; 2] = (Some 0, [1; 2]).
Proof.
  intros h user.
  destruct (findPartner_two_tier h user [0; 1; 2]) as (H1 & _).
  destruct (findPartner_two_tier h (set_interests None user) [0; 1; 2])
    as (_ & H2 & _).
  split.
  - apply (H1 1 1). exists (mkUser "B" "sB" (Some ["music"]) false None).
    repeat split; try done.
    + exists "music". split; by left.
    + intros [|[|j]] l' c' Hj Hl Hc; [|lia|lia].
      injection Hl as <-. injection Hc as <-.
      intros [_ (x & _ & Hx)]. inversion Hx.
  - apply (H2 0 0); [by left|].
    exists (mkUser "A" "sA" None false None).
    repeat split; try done. intros j l' c' Hj. lia.
Defined.

Lemma cancel_search_answers_witness :
  (step paired (CancelSearch "sA")).2 = [mkEmit "sA" "search-cancelled" PNone] ∧
  step paired (CancelSearch "ghost") = (paired, []).
Proof.
  destruct (cancel_search_answers pairing "sA") as [H1 _].
  destruct (cancel_search_answers pairing "ghost") as [_ H2].
  split; [apply H1; by eexists | by apply H2].
Defined.

Lemma teardown_safe_witness :
  reachable paired ∧
  Map_get "sA" (activeUsers paired) = Some 0 ∧
  users paired !! 0 = Some (mkUser "A" "sA" None true (Some "B")) ∧
  users (step paired (SkipPartner "sA")).1 !! 1 =
    Some (mkUser "B" "sB" None false None) ∧
  named "partner-disconnected" (step paired (SkipPartner "sA")).2 =
    [mkEmit "sB" "partner-disconnected" PNone] ∧
  named "partner-disconnected" (step paired (Disconnect "sA")).2 =
    [mkEmit "sB" "partner-disconnected" PNone].
Proof.
  pose proof (teardown_safe paired "sA" 0 (mkUser "A" "sA" None true (Some "B"))
                reachable_paired eq_refl eq_refl) as (_ & _ & H & _).
  destruct (H "sB" 1 (mkUser "B" "sB" None true (Some "A")) eq_refl)
    as (_ & HB & _ & Hskip & _ & _ & _ & Hdisc);
    [vm_compute; right; by left | done | done |].
  repeat split; try done. apply reachable_paired.
Defined.

Lemma initiator_is_requester_witness :
  let s := run init [Connection "sA" "A"; Connection "sB" "B"; FindPartner "sA" None] in
  reachable s ∧
  named "partner-found" (step s (FindPartner "sB" None)).2 =
    [mkEmit "sB" "partner-found" (PPartnerFound "A" "room-B-A" true);
     mkEmit "sA" "partner-found" (PPartnerFound "B" "room-B-A" false)].
Proof.
  intros s.
  assert (reachable s) as Hr.
  { exists [Connection "sA" "A"; Connection "sB" "B"; FindPartner "sA" None].
    by split. }
  split; [done|].
  destruct (initiator_is_requester s "sB" None Hr)
    as [[H _]|(cu & pl & c & p & _ & _ & _ & _ & _ & _ & _ & _ & _ & H)];
    [discriminate H | reflexivity].
Defined.

Lemma relay_delivery_witness :
  (∀ e, e ∈ (step paired (Typing "sA" "room-B-A" "true")).2 ↔
        ∃ t, e = mkEmit t "partner-typing" (PTyping "true") ∧
             t ∈ members "room-B-A" (sockets paired) ∧ t ≠ "sA") ∧
  (∀ e, e ∈ (step paired (SendMessage "sA" "hi" "room-B-A" "m1" 0)).2 ↔
        ∃ t, e = mkEmit t "receive-message" (PMessage "m1" "A" "hi" 0) ∧
             t ∈ members "room-B-A" (sockets paired)).
Proof.
  split.
  - apply (proj1 (relay_delivery paired (Typing "sA" "room-B-A" "true"))
             "sA" "room-B-A" "partner-typing" (PTyping "true") eq_refl).
  - apply (proj2 (relay_delivery paired (SendMessage "sA" "hi" "room-B-A" "m1" 0))
             "sA" "hi" "room-B-A" "m1" 0 0
             (mkUser "A" "sA" None true (Some "B")) eq_refl eq_refl eq_refl).
Defined.

Lemma unknown_connection_witness :
  Map_get "ghost" (activeUsers paired) = None ∧
  step paired (FindPartner "ghost" None) = (paired, []) ∧
  step paired (SkipPartner "ghost") = (paired, []).
Proof.
  split; [done|]. split.
  - by apply (unknown_connection paired (FindPartner "ghost" None) eq_refl).
  - by apply (unknown_connection paired (SkipPartner "ghost") eq_refl).
Defined.

Lemma stamped_origin_witness :
  let ev := FindPartner "sB" None in
  let s := run init [Connection "sA" "A"; Connection "sB" "B"; FindPartner "sA" None] in
  let e := mkEmit "sA" "partner-found" (PPartnerFound "B" "room-B-A" false) in
  e ∈ (step s ev).2 ∧ "B" ∈ stamped (payload e) ∧
  "B" ∈ id <$> users (step s ev).1.
Proof.
  intros ev s e.
  assert (e ∈ (step s ev).2) as He by (vm_compute; right; by left).
  assert ("B" ∈ stamped (payload e)) as Hx by (simpl; by left).
  repeat split; try done.
  destruct (stamped_origin s ev e "B" He Hx)
    as [(? & ? & [=] & _)|[H|[(a & b & _ & _ & Hab)|(? & ? & ? & ? & [=])]]];
    [done|].
  vm_compute. right. by left.
Defined.

(** ** Further properties of the matcher and of the waiting pool *)

Lemma removeFromWaiting_absent (h : list User) (a : string) (w : list loc) :
  (∀ l, l ∈ w → hid h l ≠ Some a) → removeFromWaiting h a w = w.
Proof.
  intros Hno. unfold removeFromWaiting.
  assert (findIndex (has_id h a) w = None) as ->; [|done].
  apply findIndex_None. intros l Hl. specialize (Hno l Hl).
  destruct (has_id h a l) eqn:E; [|done]. by apply has_id_hid in E.
Qed.

(** X1.  [removeFromWaiting] leaves the pool alone when no entry carries the
    id, and otherwise removes the first entry that does and only that
    one: the entries before and after it keep their order, later entries
    with the same id included. *)
Theorem removeFromWaiting_first (h : list User) (a : string) (w : list loc) :
  ((∀ l, l ∈ w → hid h l ≠ Some a) → removeFromWaiting h a w = w) ∧
  (∀ w1 l w2, w = w1 ++ l :: w2 → hid h l = Some a →
     (∀ l', l' ∈ w1 → hid h l' ≠ Some a) →
     removeFromWaiting h a w = w1 ++ w2).
Proof.
  split; [apply removeFromWaiting_absent|]. unfold removeFromWaiting.
  intros w1 l w2 -> Hl Hno.
  assert (findIndex (has_id h a) (w1 ++ l :: w2) = Some (length w1)) as ->.
  { apply findIndex_Some. exists l. repeat split.
    - by rewrite lookup_app_r, Nat.sub_diag.
    - by apply has_id_hid.
    - intros j y Hj Hy. rewrite lookup_app_l in Hy by done.
      apply list_elem_of_lookup_2, Hno in Hy.
      destruct (has_id h a y) eqn:E; [|done]. by apply has_id_hid in E. }
  apply delete_middle.
Qed.

Lemma removeFromWaiting_first_witness :
  let h := [mkUser "A" "sA" None false None; mkUser "B" "sB" None false None;
            mkUser "B" "sC" None false None] in
  removeFromWaiting h "C" [0; 1; 2] = [0; 1; 2] ∧
  removeFromWaiting h "B" [0; 1; 2] = [0; 2].
Proof.
  intros h. destruct (removeFromWaiting_first h "C" [0; 1; 2]) as [H1 _].
  destruct (removeFromWaiting_first h "B" [0; 1; 2]) as [_ H2].
  split.
  - apply H1. intros l Hl. unfold hid.
    repeat (apply elem_of_cons in Hl as [->|Hl]; [done|]). inversion Hl.
  - apply (H2 [0] 1 [2]); [done | done |].
    intros l' ->%list_elem_of_singleton. done.
Defined.

(** X2.  Whatever the pool holds, a user returned by [findPartner] is an
    allocated entry of the pool whose id differs from the requester's
    (the requester is never matched with itself, even when it is in the
    pool), and the pool returned is the old one without that one entry. *)
Theorem findPartner_sound (h : list User) (user : User) (w w' : list loc) (l : loc) :
  findPartner h user w = (Some l, w') →
  ∃ i c, w !! i = Some l ∧ w' = delete i w ∧ h !! l = Some c ∧
         id c ≠ id user ∧ length w = S (length w').
Proof.
  intros [(? & _)|(i & pl & p & [= ->] & -> & Hi & Hp & Hne)]%findPartner_inv;
    [done|].
  exists i, p. repeat split; try done.
  rewrite length_delete by eauto.
  apply lookup_lt_Some in Hi. lia.
Qed.

Lemma findPartner_sound_witness :
  let h := [mkUser "A" "sA" None false None; mkUser "B" "sB" None false None] in
  findPartner h (mkUser "A" "sA" None false None) [0; 1] = (Some 1, [0]) ∧
  ∃ i c, [0; 1] !! i = Some 1 ∧ [0] = delete i [0; 1] ∧ h !! 1 = Some c ∧
         id c ≠ "A" ∧ length [0; 1] = S (length [0]).
Proof.
  intros h. split; [done|].
  by apply (findPartner_sound h (mkUser "A" "sA" None false None) [0; 1] [0] 1).
Defined.

(** X3.  The interest test of the matcher is symmetric: a requester would
    pick a candidate by interest exactly when the candidate, as
    requester, would pick it. *)
Theorem shares_interest_sym (a b : User) :
  shares_interest a b = shares_interest b a.
Proof.
  apply eq_true_iff_eq. rewrite !shares_interest_spec.
  split; intros [Hne (x & Hx & Hy)]; (split; [congruence | by exists x]).
Qed.

(** ** Further properties of the registry *)

Lemma Map_get_set_eq {V} (m : list (string * V)) k v :
  Map_get k (Map_set k v m) = Some v.
Proof.
  induction m as [|[k0 v0] m IH]; simpl.
  - by rewrite String.eqb_refl.
  - destruct (String.eqb_spec k0 k) as [->|Hne]; simpl.
    + by rewrite String.eqb_refl.
    + by destruct (String.eqb_spec k0 k).
Qed.

Lemma Map_get_set_ne {V} (m : list (string * V)) k k' v :
  k' ≠ k → Map_get k' (Map_set k v m) = Map_get k' m.
Proof.
  intros Hne. induction m as [|[k0 v0] m IH]; simpl.
  - by destruct (String.eqb_spec k k').
  - destruct (String.eqb_spec k0 k) as [->|Hne']; simpl.
    + by destruct (String.eqb_spec k k').
    + by rewrite IH.
Qed.

Lemma Map_delete_set_absent {V} (m : list (string * V)) k v :
  k ∉ m.*1 → Map_delete k (Map_set k v m) = m.
Proof.
  induction m as [|[k0 v0] m IH]; simpl; intros Hin.
  - by rewrite String.eqb_refl.
  - apply not_elem_of_cons in Hin as [Hne Hin].
    destruct (String.eqb_spec k0 k) as [->|_]; [done|]. simpl.
    destruct (String.eqb_spec k0 k) as [->|_]; [done|]. f_equal. auto.
Qed.

Lemma Map_get_delete_eq {V} (m : list (string * V)) k :
  NoDup m.*1 → Map_get k (Map_delete k m) = None.
Proof.
  intros Hnd. apply Map_get_None.
  intros (kv & Hk & Hin)%list_elem_of_fmap. destruct kv as [k' v']. simpl in Hk.
  subst k'. by apply (Map_delete_elem _ _ _ _ Hnd) in Hin as [? _].
Qed.

(** X4.  A new connection is registered under its socket id with a record
    that has the generated id, no interests, no partner and [inChat]
    false; the records and registry entries of all other sockets and the
    waiting pool are left as they were; and the first event emitted is
    user-id with that id, to the new socket. *)
Theorem connection_registers (s : State) (sid uid : string) :
  let r := step s (Connection sid uid) in
  (∃ l, Map_get sid (activeUsers r.1) = Some l ∧
        users r.1 !! l = Some (mkUser uid sid None false None)) ∧
  (∀ k, k ≠ sid → Map_get k (activeUsers r.1) = Map_get k (activeUsers s)) ∧
  (∀ l u, users s !! l = Some u → users r.1 !! l = Some u) ∧
  waitingUsers r.1 = waitingUsers s ∧
  head r.2 = Some (mkEmit sid "user-id" (PUserId uid)).
Proof.
  simpl. repeat split.
  - exists (length (users s)). split; [apply Map_get_set_eq|].
    by rewrite lookup_app_r, Nat.sub_diag.
  - intros k Hne. by apply Map_get_set_ne.
  - intros l u Hu. by apply lookup_app_l_Some.
Qed.

(** ** The waiting pool never holds more than one user *)

Lemma queued_alone s sid ints cu c0 :
  wf s → Map_get sid (activeUsers s) = Some cu → users s !! cu = Some c0 →
  let h1 := alter (λ u, set_inChat false (set_interests ints u)) cu (users s) in
  let w1 := removeFromWaiting (users s) (id c0) (waitingUsers s) in
  findPartner h1 (set_inChat false (set_interests ints c0)) w1 = (None, w1) →
  w1 = [].
Proof.
  intros Hwf Hg Hc0 h1 w1 Hfp.
  apply findPartner_inv in Hfp as [(_ & _ & Hfi)|(? & ? & ? & ? & _)]; [|done].
  rewrite (through_none _ _ _
             (λ c, id c ≠ id (set_inChat false (set_interests ints c0)))) in Hfi
    by (intros c; apply other_user_spec).
  simpl in Hfi.
  destruct w1 as [|l w1'] eqn:Hw1; [done|]. exfalso.
  assert (l ∈ removeFromWaiting (users s) (id c0) (waitingUsers s)) as Hl.
  { fold w1. rewrite Hw1. left. }
  destruct (wf_pool s Hwf l) as (u & Hu & _).
  { eapply elem_of_sublist; [done | apply removeFromWaiting_sublist]. }
  destruct (lookup_alter_keeps _ (keeps_ident_interests ints) cu (users s) l u Hu)
    as (u' & Hu' & Hid & _).
  assert (id u' = id c0) as Heq.
  { destruct (decide (id u' = id c0)) as [|Hne]; [done|].
    destruct (Hfi l u'); [left | done | done]. }
  apply (removeFromWaiting_not_in (users s) (id c0) (waitingUsers s));
    [apply (wf_pool_ids s Hwf)|].
  apply list_elem_of_fmap. exists l. split; [|done].
  unfold hid. rewrite Hu. simpl. congruence.
Qed.

Lemma pool_small_step s ev :
  wf s → (length (waitingUsers s) ≤ 1)%nat → (length (waitingUsers (step s ev).1) ≤ 1)%nat.
Proof.
  intros Hwf Hlen.
  assert (∀ a h, (length (removeFromWaiting h a (waitingUsers s)) ≤ 1)%nat) as Hrm.
  { intros a h. etrans; [apply sublist_length, removeFromWaiting_sublist | done]. }
  destruct ev; simpl; try done.
  - destruct (Map_get sid (activeUsers s)) as [cu|] eqn:Hg;
      [|by unfold on_find_partner; rewrite Hg].
    destruct (on_find_partner_cases s sid ints cu Hwf Hg)
      as (c0 & Hc0 & _ & _ & _ & _ & Hcases).
    destruct Hcases as [[Hfp ->]|(i & pl & p & _ & _ & _ & _ & _ & _ & ->)]; simpl.
    + by rewrite (queued_alone s sid ints cu c0 Hwf Hg Hc0 Hfp).
    + etrans; [apply sublist_length, sublist_delete | apply Hrm].
  - unfold on_cancel_search.
    destruct (Map_get sid (activeUsers s)) as [cu|]; [|done].
    destruct (users s !! cu) as [c|]; [|done]. apply Hrm.
  - unfold on_send_message.
    destruct (Map_get sid (activeUsers s)) as [cu|]; [|done].
    by destruct (users s !! cu) as [c|].
  - unfold on_skip_partner.
    destruct (Map_get sid (activeUsers s)) as [cu|]; [|done].
    destruct (users s !! cu) as [c|]; [|done].
    destruct (negb (truthy (partnerId c))); [done|].
    by destruct (partnerEntry _ _ _) as [[k pl]|].
  - unfold on_disconnect.
    destruct (Map_get sid (activeUsers s)) as [cu|]; [|done].
    destruct (users s !! cu) as [c|]; [|done].
    destruct (truthy (partnerId c));
      [destruct (partnerEntry _ _ _) as [[k pl]|]|]; simpl; apply Hrm.
Qed.

Lemma pool_small_run evs : (length (waitingUsers (run init evs)) ≤ 1)%nat.
Proof.
  assert (∀ s, wf s → (length (waitingUsers s) ≤ 1)%nat →
               (length (waitingUsers (run s evs)) ≤ 1)%nat) as H.
  { induction evs as [|ev evs IH]; intros s Hwf Hlen; simpl; [done|].
    apply IH; [by apply wf_step | by apply pool_small_step]. }
  apply H; [apply wf_init | simpl; lia].
Qed.

(** X5.  After any sequence of events the waiting pool holds at most one
    user. *)
Theorem pool_at_most_one (evs : list Event) :
  (length (waitingUsers (run init evs)) ≤ 1)%nat.
Proof. apply pool_small_run. Qed.

Lemma findPartner_small (h : list User) (user : User) (w : list loc) :
  (length w ≤ 1)%nat →
  findPartner h user w =
    match findIndex (through h (other_user user)) w with
    | Some i => splice1 i w
    | None => (None, w)
    end.
Proof.
  intros Hlen. unfold findPartner.
  destruct (if has_interests user then _ else _) as [i|] eqn:H1; [|done].
  destruct (has_interests user); [|done].
  apply findIndex_Some in H1 as (l & Hi & Hp & _).
  destruct w as [|l0 [|? ?]]; [done | | simpl in Hlen; lia].
  destruct i as [|i]; [|done]. injection Hi as ->. simpl.
  assert (through h (other_user user) l = true) as ->; [|done].
  unfold through in *. destruct (h !! l) as [c|]; [|done].
  apply shares_interest_spec in Hp as [Hne _]. by apply other_user_spec.
Qed.

Lemma through_other_hid (h : list User) (user : User) (l : loc) :
  through h (other_user user) l =
    match hid h l with
    | Some a => negb (String.eqb a (id user))
    | None => false
    end.
Proof. unfold through, hid, other_user. by destruct (h !! l). Qed.

(** X6.  After any sequence of events the interests sent with find-partner
    have no effect on the outcome: the same events are emitted to the
    same sockets, and the resulting states agree on the waiting pool, the
    registry, the rooms and every user field except [interests]. *)
Theorem interests_never_matter (evs : list Event) (sid : string)
    (ints ints' : option (list string)) :
  let s := run init evs in
  let r := step s (FindPartner sid ints) in
  let r' := step s (FindPartner sid ints') in
  r.2 = r'.2 ∧
  waitingUsers r.1 = waitingUsers r'.1 ∧
  activeUsers r.1 = activeUsers r'.1 ∧
  sockets r.1 = sockets r'.1 ∧
  set_interests None <$> users r.1 = set_interests None <$> users r'.1.
Proof.
  intros s. pose proof (wf_run evs) as Hwf. pose proof (pool_small_run evs) as Hlen.
  fold s in Hwf, Hlen. simpl.
  destruct (Map_get sid (activeUsers s)) as [cu|] eqn:Hg;
    [|by unfold on_find_partner; rewrite Hg].
  destruct (on_find_partner_cases s sid ints cu Hwf Hg)
    as (c0 & Hc0 & _ & _ & _ & _ & Hcases).
  destruct (on_find_partner_cases s sid ints' cu Hwf Hg)
    as (c0' & Hc0' & _ & _ & _ & _ & Hcases').
  assert (c0' = c0) as -> by congruence.
  set (w1 := removeFromWaiting (users s) (id c0) (waitingUsers s)) in *.
  assert ((length w1 ≤ 1)%nat) as Hlen1.
  { etrans; [apply sublist_length, removeFromWaiting_sublist | done]. }
  assert (findPartner
            (alter (λ u, set_inChat false (set_interests ints u)) cu (users s))
            (set_inChat false (set_interests ints c0)) w1 =
          findPartner
            (alter (λ u, set_inChat false (set_interests ints' u)) cu (users s))
            (set_inChat false (set_interests ints' c0)) w1) as Hsame.
  { rewrite !findPartner_small by done.
    rewrite (findIndex_ext _
      (through (alter (λ u, set_inChat false (set_interests ints' u)) cu (users s))
               (other_user (set_inChat false (set_interests ints' c0))))); [done|].
    intros l _. rewrite !through_other_hid.
    by rewrite !hid_alter by apply keeps_ident_interests. }
  assert (∀ g g' : User → User, (∀ u, set_interests None (g u) = g' (set_interests None u)) →
            ∀ l0 (h : list User),
              set_interests None <$> alter g l0 h =
              alter g' l0 (set_interests None <$> h)) as Hfa.
  { intros g g' Hg' l0 h. apply list_fmap_alter, Forall_true, Hg'. }
  destruct Hcases as [[Hfp ->]|(i & pl & p & Hfp & Hi & Hp & _ & Hplcu & _ & ->)];
    destruct Hcases'
      as [[Hfp' ->]|(i' & pl' & p' & Hfp' & Hi' & Hp' & _ & Hplcu' & _ & ->)];
    rewrite Hfp, Hfp' in Hsame; try done; simpl.
  - repeat split.
    rewrite (Hfa (λ u, set_inChat false (set_interests ints u)) (set_inChat false))
      by done.
    by rewrite (Hfa (λ u, set_inChat false (set_interests ints' u)) (set_inChat false))
      by done.
  - injection Hsame as <- Hdel.
    rewrite list_lookup_alter_ne in Hp, Hp' by done.
    assert (p' = p) as -> by congruence.
    repeat split; [by rewrite Hdel|].
    rewrite !(Hfa (λ u, set_inChat true (set_partnerId (Some (id c0)) u))
                  (λ u, set_inChat true (set_partnerId (Some (id c0)) u))) by done.
    rewrite !(Hfa (λ u, set_inChat true (set_partnerId (Some (id p)) u))
                  (λ u, set_inChat true (set_partnerId (Some (id p)) u))) by done.
    rewrite (Hfa (λ u, set_inChat false (set_interests ints u)) (set_inChat false))
      by done.
    by rewrite (Hfa (λ u, set_inChat false (set_interests ints' u)) (set_inChat false))
      by done.
Qed.

Lemma filter_all {A} (P : A → Prop) `{!∀ x, Decision (P x)} (l : list A) :
  (∀ x, x ∈ l → P x) → filter P l = l.
Proof.
  induction l as [|x l IH]; intros Hall; [done|].
  rewrite filter_cons_True by (apply Hall; left). f_equal.
  apply IH. intros y Hy. apply Hall. by right.
Qed.

Lemma removeFromWaiting_filter (h : list User) (a : string) (w : list loc) :
  NoDup (pool_ids h w) →
  removeFromWaiting h a w = filter (λ l, hid h l ≠ Some a) w.
Proof.
  unfold removeFromWaiting, pool_ids.
  induction w as [|l w IH]; intros Hnd; [done|].
  rewrite fmap_cons in Hnd. apply NoDup_cons in Hnd as [Hl Hnd]. simpl.
  destruct (has_id h a l) eqn:Hid.
  - apply has_id_hid in Hid. simpl.
    rewrite filter_cons_False by (by intros ?).
    symmetry. apply filter_all. intros l' Hl' Heq.
    apply Hl. rewrite Hid, <- Heq. by apply list_elem_of_fmap_2.
  - rewrite filter_cons_True
      by (intros Heq; apply has_id_hid in Heq; congruence).
    specialize (IH Hnd).
    rewrite <- IH. by destruct (findIndex (has_id h a) w) as [i|].
Qed.

(** X7.  After any sequence of events, cancel-search from a registered
    user leaves in the waiting pool exactly the entries that carry
    another id, in the order they had: no entry for that user is left
    and no other entry is dropped.  It changes neither the user records,
    the registry nor the rooms. *)
Theorem cancel_search_dequeues (evs : list Event) (sid : string) (cu : nat) (c : User) :
  let s := run init evs in
  let r := step s (CancelSearch sid) in
  Map_get sid (activeUsers s) = Some cu → users s !! cu = Some c →
  waitingUsers r.1 =
    filter (λ l, hid (users s) l ≠ Some (id c)) (waitingUsers s) ∧
  (cu ∉ waitingUsers r.1) ∧
  (Some (id c) ∉ pool_ids (users r.1) (waitingUsers r.1)) ∧
  waitingUsers r.1 `sublist_of` waitingUsers s ∧
  users r.1 = users s ∧ activeUsers r.1 = activeUsers s ∧ sockets r.1 = sockets s.
Proof.
  intros s r Hg Hc. pose proof (wf_run evs) as Hwf. fold s in Hwf.
  unfold r. simpl. unfold on_cancel_search. rewrite Hg, Hc. simpl.
  assert (Some (id c) ∉ pool_ids (users s)
            (removeFromWaiting (users s) (id c) (waitingUsers s))) as Hni.
  { apply removeFromWaiting_not_in, (wf_pool_ids s Hwf). }
  repeat split; try done.
  - apply removeFromWaiting_filter, (wf_pool_ids s Hwf).
  - eapply (pool_ids_not_in (users s)); [|done]. unfold hid. by rewrite Hc.
  - apply removeFromWaiting_sublist.
Qed.

Lemma cancel_search_dequeues_witness :
  let s := run init [Connection "sA" "A"; Connection "sB" "B"; FindPartner "sA" None] in
  waitingUsers s = [0] ∧
  waitingUsers (step s (CancelSearch "sA")).1 =
    filter (λ l, hid (users s) l ≠ Some "A") (waitingUsers s) ∧
  waitingUsers (step s (CancelSearch "sB")).1 =
    filter (λ l, hid (users s) l ≠ Some "B") (waitingUsers s) ∧
  waitingUsers (step s (CancelSearch "sA")).1 = [] ∧
  waitingUsers (step s (CancelSearch "sB")).1 = [0].
Proof.
  intros s. split; [done|]. split; [|split; [|done]].
  - apply (cancel_search_dequeues
             [Connection "sA" "A"; Connection "sB" "B"; FindPartner "sA" None]
             "sA" 0 (mkUser "A" "sA" None false None) eq_refl eq_refl).
  - apply (cancel_search_dequeues
             [Connection "sA" "A"; Connection "sB" "B"; FindPartner "sA" None]
             "sB" 1 (mkUser "B" "sB" None false None) eq_refl eq_refl).
Defined.

(** X8.  In every reachable state each waiting-pool entry is a registered
    user whose socket is connected: the pool holds no stale entry of a
    user that has disconnected. *)
Theorem pool_entries_registered (s : State) (l : nat) :
  reachable s → l ∈ waitingUsers s →
  ∃ k u, Map_get k (activeUsers s) = Some l ∧ users s !! l = Some u ∧
         socketId u = k ∧ inChat u = false ∧ is_Some (Map_get k (sockets s)).
Proof.
  intros [Hwf Hu]%reachable_inv Hl.
  destruct (uniq_pool s Hu l Hl) as [k Hk].
  destruct (wf_registry s Hwf k l Hk) as (u & Hlu & Hs).
  destruct (wf_pool s Hwf l Hl) as (u' & Hlu' & Hc).
  assert (u' = u) as -> by congruence.
  exists k, u. repeat split; try done.
  - by apply (Map_get_elem _ _ _ (wf_keys s Hwf)).
  - apply Map_get_is_Some. rewrite (wf_sockets s Hwf).
    apply list_elem_of_fmap. by exists (k, l).
Qed.

Lemma pool_entries_registered_witness :
  let s := run init [Connection "sA" "A"; FindPartner "sA" None] in
  reachable s ∧ 0 ∈ waitingUsers s ∧
  ∃ k u, Map_get k (activeUsers s) = Some 0 ∧ users s !! 0 = Some u ∧
         socketId u = k ∧ inChat u = false ∧ is_Some (Map_get k (sockets s)).
Proof.
  intros s.
  assert (reachable s) as Hr.
  { exists [Connection "sA" "A"; FindPartner "sA" None]. by split. }
  assert (0 ∈ waitingUsers s) as Hin by (vm_compute; by left).
  repeat split; try done. by apply pool_entries_registered.
Defined.

(** ** How the handlers compose *)

(** X9.  After any sequence of events, a connection with an unused socket id
    and a new user id followed at once by its disconnect restores the
    registry, the waiting pool and the rooms exactly; only the record of
    the departed user stays behind in the store, referenced by nothing. *)
Theorem connect_disconnect_roundtrip (evs : list Event) (sid uid : string) :
  let s := run init evs in
  fresh s (Connection sid uid) = true →
  run s [Connection sid uid; Disconnect sid] =
    mkState (users s ++ [mkUser uid sid None false None])
      (waitingUsers s) (activeUsers s) (sockets s).
Proof.
  intros s Hfresh. pose proof (wf_run evs) as Hwf. fold s in Hwf.
  simpl in Hfresh. apply andb_true_iff in Hfresh as [Hsid Huid].
  apply negb_true_iff, includes_false in Hsid, Huid.
  unfold run. simpl. unfold on_disconnect. simpl.
  rewrite Map_get_set_eq, lookup_app_r, Nat.sub_diag by done. simpl.
  rewrite !Map_delete_set_absent by (by rewrite ?(wf_sockets s Hwf)).
  f_equal. apply removeFromWaiting_absent. intros l Hl.
  destruct (wf_pool s Hwf l Hl) as (u & Hu & _). unfold hid.
  rewrite (lookup_app_l_Some _ _ _ _ Hu). simpl. intros [= Heq].
  apply Huid. rewrite <- Heq. by eapply id_elem_of.
Qed.

Lemma connect_disconnect_roundtrip_witness :
  fresh paired (Connection "sC" "C") = true ∧
  run paired [Connection "sC" "C"; Disconnect "sC"] =
    mkState (users paired ++ [mkUser "C" "sC" None false None])
      (waitingUsers paired) (activeUsers paired) (sockets paired).
Proof.
  split; [done|].
  by apply (connect_disconnect_roundtrip pairing "sC" "C").
Defined.

Lemma disconnect_unregisters s sid :
  wf s → Map_get sid (activeUsers (on_disconnect sid s).1) = None.
Proof.
  intros Hwf. unfold on_disconnect.
  destruct (Map_get sid (activeUsers s)) as [cu|] eqn:Hg; [|done].
  destruct (registered_allocated s sid cu Hwf Hg) as (c & -> & _).
  destruct (truthy (partnerId c));
    [destruct (partnerEntry _ _ _) as [[k pl]|]|]; simpl;
    apply Map_get_delete_eq, (wf_keys s Hwf).
Qed.

(** X10.  After any sequence of events a repeated disconnect of the same
    socket changes nothing: the state after the second one is the state
    after the first, and the second one emits nothing but the online
    count. *)
Theorem disconnect_twice (evs : list Event) (sid : string) :
  let s1 := (step (run init evs) (Disconnect sid)).1 in
  (step s1 (Disconnect sid)).1 = s1 ∧
  (∀ e, e ∈ (step s1 (Disconnect sid)).2 → event e = "online-count").
Proof.
  intros s1.
  assert (wf s1) as Hwf1 by apply wf_step, wf_run.
  assert (Map_get sid (activeUsers s1) = None) as Hg1
    by apply disconnect_unregisters, wf_run.
  simpl. unfold on_disconnect. rewrite Hg1. simpl. split.
  - rewrite Map_delete_absent; [by destruct s1|].
    rewrite (wf_sockets s1 Hwf1). by apply Map_get_None.
  - by intros e (t & ->)%elem_of_io_emit.
Qed.

(** X11.  After any sequence of events a repeated skip-partner on the same
    socket is a no-op: it changes nothing and emits nothing. *)
Theorem skip_twice (evs : list Event) (sid : string) :
  let s1 := (step (run init evs) (SkipPartner sid)).1 in
  step s1 (SkipPartner sid) = (s1, []).
Proof.
  pose proof (wf_run evs) as Hwf. simpl. set (s := run init evs) in *.
  assert (on_skip_partner sid s = (s, []) ∨
          ∃ cu c, Map_get sid (activeUsers (on_skip_partner sid s).1) = Some cu ∧
                  users (on_skip_partner sid s).1 !! cu = Some (clear_partner c))
    as [Hsame|(cu & c & Hg1 & Hc1)].
  { unfold on_skip_partner.
    destruct (Map_get sid (activeUsers s)) as [cu|] eqn:Hg; [|by left].
    destruct (registered_allocated s sid cu Hwf Hg) as (c & Hc & _). rewrite Hc.
    destruct (negb (truthy (partnerId c))); [by left|].
    right. exists cu, c.
    destruct (partnerEntry _ _ _) as [[k pl]|]; simpl; (split; [done|]).
    - rewrite list_lookup_alter_eq, list_lookup_alter.
      case_decide; subst; by rewrite Hc.
    - by rewrite list_lookup_alter_eq, Hc. }
  - by rewrite !Hsame.
  - set (s1 := (on_skip_partner sid s).1) in *.
    unfold on_skip_partner. by rewrite Hg1, Hc1.
Qed.

(** ** What no handler ever does to the user records *)

Ltac open_handler :=
  repeat match goal with
  | |- context [match Map_get ?k ?m with _ => _ end] =>
      destruct (Map_get k m) as [?|] eqn:?
  | |- context [match findPartner ?a ?b ?c with _ => _ end] =>
      destruct (findPartner a b c) as [[?|] ?] eqn:?
  | |- context [match partnerEntry ?a ?b ?c with _ => _ end] =>
      destruct (partnerEntry a b c) as [[? ?]|] eqn:?
  | |- context [if negb (truthy ?x) then _ else _] =>
      destruct (negb (truthy x)) eqn:?
  | |- context [if truthy ?x then _ else _] => destruct (truthy x) eqn:?
  | |- context [match @lookup nat User (list User) _ ?l ?h with _ => _ end] =>
      destruct (h !! l) as [?|] eqn:?
  end.

Ltac unfold_handlers :=
  unfold on_connection, on_find_partner, on_cancel_search, on_send_message,
    on_skip_partner, on_disconnect.

Lemma store_alter (P : User → Prop) (f : User → User) l0 (h : list User) :
  (∀ u, P u → P (f u)) →
  (∀ l u, h !! l = Some u → P u) →
  ∀ l u, alter f l0 h !! l = Some u → P u.
Proof.
  intros Hf H l u. rewrite list_lookup_alter. case_decide; [|apply H].
  subst. destruct (h !! l) as [u0|] eqn:Hu0; simpl; [|done].
  intros [= <-]. eapply Hf, H, Hu0.
Qed.

(** A property of single user records that holds of a new record and
    is kept by the four mutations the handlers perform holds of every
    record after every event. *)
Lemma store_step (P : User → Prop) s ev :
  (∀ uid sid, P (mkUser uid sid None false None)) →
  (∀ ints u, P u → P (set_inChat false (set_interests ints u))) →
  (∀ pid u, P u → P (set_inChat true (set_partnerId (Some pid) u))) →
  (∀ u, P u → P (clear_partner u)) →
  (∀ l u, users s !! l = Some u → P u) →
  ∀ l u, users (step s ev).1 !! l = Some u → P u.
Proof.
  intros Hnew Hint Hmatch Hclear H.
  destruct ev; simpl; try done; unfold_handlers; open_handler; simpl; try done;
    repeat (apply store_alter; [by auto|]); try done.
  intros l u. rewrite lookup_app_Some.
  intros [Hu|[_ Hu]]; [by eapply H|].
  apply list_lookup_singleton_Some in Hu as [_ <-]. apply Hnew.
Qed.

Lemma store_run (P : User → Prop) evs :
  (∀ uid sid, P (mkUser uid sid None false None)) →
  (∀ ints u, P u → P (set_inChat false (set_interests ints u))) →
  (∀ pid u, P u → P (set_inChat true (set_partnerId (Some pid) u))) →
  (∀ u, P u → P (clear_partner u)) →
  ∀ s, (∀ l u, users s !! l = Some u → P u) →
  ∀ l u, users (run s evs) !! l = Some u → P u.
Proof.
  intros Hnew Hint Hmatch Hclear.
  induction evs as [|ev evs IH]; intros s H; simpl; [done|].
  apply IH. by apply store_step.
Qed.

(** X12.  After any sequence of events a user whose [inChat] flag is true has
    a [partnerId]: the flag is only ever set together with the partner,
    and the partner is only ever cleared together with the flag. *)
Theorem inChat_has_partner (evs : list Event) (l : nat) (u : User) :
  users (run init evs) !! l = Some u → inChat u = true → is_Some (partnerId u).
Proof.
  revert l u.
  apply (store_run (λ u, inChat u = true → is_Some (partnerId u))); try done.
  all: try (by intros pid u _ _; eexists).
  all: try (intros l u H; by destruct l).
Qed.

Lemma inChat_has_partner_witness :
  users paired !! 0 = Some (mkUser "A" "sA" None true (Some "B")) ∧
  is_Some (Some "B").
Proof.
  split; [done|].
  by apply (inChat_has_partner pairing 0 (mkUser "A" "sA" None true (Some "B"))).
Defined.

(** X13.  After any sequence of events nobody is their own partner, whatever
    ids the environment hands out. *)
Theorem never_own_partner (evs : list Event) (l : nat) (u : User) :
  users (run init evs) !! l = Some u → partnerId u ≠ Some (id u).
Proof. apply (wf_not_self _ (wf_run evs)). Qed.

Lemma never_own_partner_witness :
  users paired !! 0 = Some (mkUser "A" "sA" None true (Some "B")) ∧
  Some "B" ≠ Some "A".
Proof.
  split; [done|].
  by apply (never_own_partner pairing 0 (mkUser "A" "sA" None true (Some "B"))).
Defined.

Lemma ident_step s ev l u :
  users s !! l = Some u →
  ∃ u', users (step s ev).1 !! l = Some u' ∧
        id u' = id u ∧ socketId u' = socketId u.
Proof.
  intros Hu.
  assert (∀ f l0 (h : list User), keeps_ident f →
            (∃ u', h !! l = Some u' ∧ id u' = id u ∧ socketId u' = socketId u) →
            ∃ u', alter f l0 h !! l = Some u' ∧
                  id u' = id u ∧ socketId u' = socketId u) as Halt.
  { intros f l0 h Hf (u1 & Hu1 & Hid & Hs).
    destruct (lookup_alter_keeps f Hf l0 h l u1 Hu1) as (u' & Hu' & Hid' & Hs' & _).
    exists u'. split; [done|]. split; congruence. }
  destruct ev; simpl; eauto; unfold_handlers; open_handler; simpl; eauto;
    repeat (apply Halt; [by intros ?|]); eauto.
  exists u. split; [by apply lookup_app_l_Some | done].
Qed.

(** X14.  No event ever removes a user record from the store or changes its
    [id] or [socketId]: a record allocated at some point is still there,
    at the same place and with the same two fields, after any further
    events. *)
Theorem identity_stable (s : State) (evs : list Event) (l : nat) (u : User) :
  users s !! l = Some u →
  ∃ u', users (run s evs) !! l = Some u' ∧
        id u' = id u ∧ socketId u' = socketId u.
Proof.
  revert s u. induction evs as [|ev evs IH]; intros s u Hu; simpl; [eauto|].
  destruct (ident_step s ev l u Hu) as (u1 & Hu1 & Hid1 & Hs1).
  destruct (IH _ u1 Hu1) as (u' & Hu' & Hid' & Hs').
  exists u'. split; [done|]. split; congruence.
Qed.

Lemma identity_stable_witness :
  users paired !! 0 = Some (mkUser "A" "sA" None true (Some "B")) ∧
  ∃ u', users (run paired [SkipPartner "sB"; Disconnect "sA"]) !! 0 = Some u' ∧
        id u' = "A" ∧ socketId u' = "sA".
Proof.
  split; [done|].
  by apply (identity_stable paired [SkipPartner "sB"; Disconnect "sA"] 0
              (mkUser "A" "sA" None true (Some "B"))).
Defined.

(** ** What is emitted, and to whom *)

Lemma elem_of_io_emit_iff name p socks e :
  e ∈ io_emit name p socks ↔ ∃ t, e = mkEmit t name p ∧ t ∈ socks.*1.
Proof. unfold io_emit. by rewrite list_elem_of_fmap. Qed.

Ltac emitted_to :=
  repeat match goal with
  | H : _ ∈ snd (_, _) |- _ => progress simpl in H
  | H : _ ∈ _ ++ _ |- _ => apply elem_of_app in H as [H|H]
  | H : _ ∈ socket_emit _ _ _ |- _ => apply list_elem_of_singleton in H; subst
  | H : _ ∈ opt_emit _ _ _ _ |- _ => apply elem_of_opt_emit in H; subst
  | H : _ ∈ io_emit _ _ _ |- _ => apply elem_of_io_emit_iff in H as (? & -> & ?)
  | H : _ ∈ io_to _ _ _ _ |- _ => apply elem_of_io_to in H as (? & -> & ?)
  | H : _ ∈ socket_to _ _ _ _ _ |- _ =>
      apply elem_of_socket_to in H as (? & -> & ? & ?)
  | H : _ ∈ [] |- _ => inversion H
  | H : _ ∈ _ :: _ |- _ => apply elem_of_cons in H as [->|H]
  end.

Lemma online_count_registry s ev e :
  e ∈ (step s ev).2 → event e = "online-count" →
  payload e = POnlineCount (length (activeUsers (step s ev).1)) ∧
  target e ∈ (sockets (step s ev).1).*1.
Proof.
  destruct ev; simpl; unfold_handlers; open_handler; simpl;
    intros He; emitted_to; simpl; intros Hev; try done.
  all: split; try done; simpl.
  all: apply Map_get_is_Some; rewrite Map_get_set_eq; by eexists.
Qed.

(** X15.  After any sequence of events, every online-count that an event emits
    carries the number of sockets connected once the event is handled and
    goes to one of those sockets; and after a connection or a disconnect
    each of those sockets receives it. *)
Theorem online_count_accurate (evs : list Event) (ev : Event) :
  let s := run init evs in
  let r := step s ev in
  (∀ e, e ∈ r.2 → event e = "online-count" →
        payload e = POnlineCount (length (sockets r.1)) ∧
        target e ∈ (sockets r.1).*1) ∧
  (∀ t, (∃ sid uid, ev = Connection sid uid) ∨ (∃ sid, ev = Disconnect sid) →
        t ∈ (sockets r.1).*1 →
        mkEmit t "online-count" (POnlineCount (length (sockets r.1))) ∈ r.2).
Proof.
  intros s r.
  assert (wf r.1) as Hwf by apply wf_step, wf_run.
  assert (length (activeUsers r.1) = length (sockets r.1)) as Hlen.
  { rewrite <- (length_fmap fst (activeUsers r.1)), <- (wf_sockets _ Hwf).
    apply length_fmap. }
  split.
  - intros e He Hev. rewrite <- Hlen. by apply online_count_registry.
  - intros t Hev Ht. rewrite <- Hlen. unfold r in *. clear Hlen Hwf.
    destruct Hev as [(sid & uid & ->)|(sid & ->)]; simpl in *.
    + right. right. apply elem_of_io_emit_iff. eauto.
    + unfold on_disconnect in *.
      destruct (Map_get sid (activeUsers s)) as [cu|];
        [destruct (users s !! cu) as [c|];
         [destruct (truthy (partnerId c));
          [destruct (partnerEntry _ _ _) as [[k pl]|]|]|]|];
        simpl in *; rewrite ?elem_of_app; try right;
        apply elem_of_io_emit_iff; eauto.
Qed.

Lemma online_count_accurate_witness :
  mkEmit "sA" "online-count" (POnlineCount 1) ∈ (step paired (Disconnect "sB")).2.
Proof.
  apply (proj2 (online_count_accurate pairing (Disconnect "sB")) "sA").
  - right. by exists "sB".
  - vm_compute. by left.
Defined.

(** X16.  The replies user-id, waiting, search-cancelled and chat-ended, and
    the partner-found that names the initiator, are only ever sent to the
    socket the event arrived on. *)
Theorem private_replies (s : State) (ev : Event) (e : Emit) :
  e ∈ (step s ev).2 →
  event e ∈ ["user-id"; "waiting"; "search-cancelled"; "chat-ended"] ∨
  (∃ pid room, payload e = PPartnerFound pid room true) →
  target e = sender ev.
Proof.
  destruct ev; simpl; unfold_handlers; open_handler; simpl;
    intros He; emitted_to; simpl; try done;
    intros [Hev|(pid & room & Hp)]; try done;
    repeat (apply elem_of_cons in Hev as [Hev|Hev]; [done|]); inversion Hev.
Qed.

Lemma private_replies_witness :
  mkEmit "sA" "chat-ended" PNone ∈ (step paired (SkipPartner "sA")).2 ∧
  target (mkEmit "sA" "chat-ended" PNone) = sender (SkipPartner "sA").
Proof.
  assert (mkEmit "sA" "chat-ended" PNone ∈ (step paired (SkipPartner "sA")).2)
    as He by (vm_compute; right; by left).
  split; [done|].
  apply (private_replies paired (SkipPartner "sA") _ He).
  left. simpl. right. right. right. by left.
Defined.

(** ** Rooms *)

Lemma elem_of_members room (socks : list (string * list string)) t :
  t ∈ members room socks ↔ ∃ rs, (t, rs) ∈ socks ∧ includes room rs = true.
Proof.
  unfold members. rewrite list_elem_of_fmap. split.
  - intros ([t' rs] & -> & [Hin Hrs]%list_elem_of_filter). by exists rs.
  - intros (rs & Hin & Hrs). exists (t, rs). split; [done|].
    by apply list_elem_of_filter.
Qed.

Lemma Map_set_elem_inv {V} (m : list (string * V)) k v k' v' :
  (k', v') ∈ m →
  (k', v') ∈ Map_set k v m ∨ (k' = k ∧ Map_get k m = Some v').
Proof.
  induction m as [|[k0 v0] m IH]; simpl; intros Hin; [inversion Hin|].
  destruct (String.eqb_spec k0 k) as [->|Hne].
  - apply elem_of_cons in Hin as [[= -> ->]|Hin]; [by right | left; by right].
  - apply elem_of_cons in Hin as [[= -> ->]|Hin]; [left; left|].
    destruct (IH Hin) as [?|[-> ?]]; [left; by right | by right].
Qed.

Lemma members_join sid r room socks t :
  t ∈ members room socks → t ∈ members room (join sid r socks).
Proof.
  rewrite !elem_of_members. intros (rs & Hin & Hrs). unfold join.
  destruct (Map_get sid socks) as [rooms|] eqn:Hg; [|by exists rs].
  destruct (includes r rooms); [by exists rs|].
  destruct (Map_set_elem_inv socks sid (rooms ++ [r]) t rs Hin) as [?|[-> Hg']];
    [by exists rs|].
  exists (rooms ++ [r]). split.
  - apply Map_get_Some_elem, Map_get_set_eq.
  - assert (rooms = rs) as -> by congruence.
    unfold includes in *. rewrite existsb_app, Hrs. done.
Qed.

(** X17.  No handler ever takes a socket out of a room: apart from the
    transport's own bookkeeping on connection and disconnect, every
    member of a room is still a member after any event, and skip-partner
    in particular leaves all rooms as they were, so both former partners
    stay in the room of the pairing that was ended. *)
Theorem rooms_never_left (s : State) (ev : Event) :
  (∀ sid uid, ev ≠ Connection sid uid) → (∀ sid, ev ≠ Disconnect sid) →
  (∀ room t, t ∈ members room (sockets s) →
             t ∈ members room (sockets (step s ev).1)) ∧
  (∀ sid, ev = SkipPartner sid → sockets (step s ev).1 = sockets s).
Proof.
  intros Hc Hd. split.
  - intros room t Ht.
    destruct ev;
      try (exfalso; eapply Hc; reflexivity);
      try (exfalso; eapply Hd; reflexivity);
      simpl; try done; unfold_handlers; open_handler; simpl; try done.
    by do 2 apply members_join.
  - intros sid ->. simpl. unfold_handlers. by open_handler.
Qed.

Lemma rooms_never_left_witness :
  "sB" ∈ members "room-B-A" (sockets paired) ∧
  "sB" ∈ members "room-B-A" (sockets (step paired (SkipPartner "sA")).1).
Proof.
  assert ("sB" ∈ members "room-B-A" (sockets paired)) as H
    by (vm_compute; right; by left).
  split; [done|].
  by apply (rooms_never_left paired (SkipPartner "sA")).
Defined.

Lemma members_join_self sid r socks :
  is_Some (Map_get sid socks) → sid ∈ members r (join sid r socks).
Proof.
  intros [rooms Hg]. apply elem_of_members. unfold join. rewrite Hg.
  destruct (includes r rooms) eqn:Hr.
  - exists rooms. split; [by apply Map_get_Some_elem | done].
  - exists (rooms ++ [r]). split; [apply Map_get_Some_elem, Map_get_set_eq|].
    unfold includes. rewrite existsb_app. simpl.
    by rewrite String.eqb_refl, orb_true_r.
Qed.

(** X18.  In a reachable state, when find-partner answers the requester with
    partner-found, the partner's socket is another socket, it is told
    the same room, both sockets are members of that room afterwards, and
    so a relay event that the requester then sends in that room reaches
    the partner. *)
Theorem pairing_joins_room (s : State) (sid : string) (ints : option (list string))
    (pid room : string) (isTyping : Json) :
  reachable s →
  let r := step s (FindPartner sid ints) in
  mkEmit sid "partner-found" (PPartnerFound pid room true) ∈ r.2 →
  ∃ psid rid,
    psid ≠ sid ∧
    mkEmit psid "partner-found" (PPartnerFound rid room false) ∈ r.2 ∧
    sid ∈ members room (sockets r.1) ∧ psid ∈ members room (sockets r.1) ∧
    mkEmit psid "partner-typing" (PTyping isTyping)
      ∈ (step r.1 (Typing sid room isTyping)).2.
Proof.
  intros [Hwf Hu]%reachable_inv r. unfold r. simpl.
  destruct (Map_get sid (activeUsers s)) as [cu|] eqn:Hg;
    [|unfold on_find_partner; rewrite Hg; by intros H; inversion H].
  destruct (on_find_partner_cases s sid ints cu Hwf Hg)
    as (c0 & Hc0 & Hc1 & _ & _ & _ & Hcases).
  destruct Hcases as [[_ ->]|(i & pl & p & _ & Hi & Hp & Hne & Hplcu & _ & ->)].
  { simpl. by intros [=]%list_elem_of_singleton. }
  rewrite list_lookup_alter_ne in Hp by done.
  assert (pl ∈ waitingUsers s) as Hpl.
  { eapply elem_of_sublist; [|apply removeFromWaiting_sublist].
    by eapply list_elem_of_lookup_2. }
  destruct (uniq_pool s Hu pl Hpl) as [k Hk].
  destruct (wf_registry s Hwf k pl Hk) as (p' & Hp' & <-).
  assert (p' = p) as -> by congruence.
  pose proof (Map_get_elem _ _ _ (wf_keys s Hwf) Hk) as Hgp.
  assert (socketId p ≠ sid) as Hsid by (intros Heq; rewrite Heq in Hgp; congruence).
  assert (is_Some (Map_get sid (sockets s))) as Hcs.
  { apply Map_get_is_Some. rewrite (wf_sockets s Hwf).
    apply list_elem_of_fmap. exists (sid, cu).
    split; [done | by apply Map_get_Some_elem]. }
  assert (socketId p ∈ (sockets s).*1) as Hcp.
  { rewrite (wf_sockets s Hwf). apply list_elem_of_fmap. by exists (socketId p, pl). }
  simpl. rewrite opt_emit_connected by done.
  intros [Heq|Hin]%elem_of_cons;
    [|apply list_elem_of_singleton in Hin; by injection Hin].
  injection Heq as -> ->.
  assert (sid ∈ members (roomOf (id c0) (id p))
            (join (socketId p) (roomOf (id c0) (id p))
               (join sid (roomOf (id c0) (id p)) (sockets s)))) as Hm1.
  { by apply members_join, members_join_self. }
  assert (socketId p ∈ members (roomOf (id c0) (id p))
            (join (socketId p) (roomOf (id c0) (id p))
               (join sid (roomOf (id c0) (id p)) (sockets s)))) as Hm2.
  { apply members_join_self, Map_get_is_Some. by rewrite join_keys. }
  exists (socketId p), (id c0). repeat split; try done.
  - right. by left.
  - apply elem_of_socket_to. by exists (socketId p).
Qed.

Lemma pairing_joins_room_witness :
  let s := run init [Connection "sA" "A"; Connection "sB" "B"; FindPartner "sA" None] in
  reachable s ∧
  ∃ psid rid,
    psid ≠ "sB" ∧
    mkEmit psid "partner-found" (PPartnerFound rid "room-B-A" false)
      ∈ (step s (FindPartner "sB" None)).2 ∧
    "sB" ∈ members "room-B-A" (sockets (step s (FindPartner "sB" None)).1) ∧
    psid ∈ members "room-B-A" (sockets (step s (FindPartner "sB" None)).1) ∧
    mkEmit psid "partner-typing" (PTyping "true")
      ∈ (step (step s (FindPartner "sB" None)).1 (Typing "sB" "room-B-A" "true")).2.
Proof.
  intros s.
  assert (reachable s) as Hr.
  { exists [Connection "sA" "A"; Connection "sB" "B"; FindPartner "sA" None].
    by split. }
  split; [done|].
  apply (pairing_joins_room s "sB" None "A" "room-B-A" "true" Hr).
  vm_compute. by left.
Defined.

(** X19.  After any sequence of events, find-partner from a registered user
    has one of two outcomes: the requester is told to wait and is then
    the only user in the waiting pool, or the requester is told
    partner-found first of all and the waiting pool is then empty. *)
Theorem find_partner_outcome (evs : list Event) (sid : string)
    (ints : option (list string)) (cu : nat) :
  let s := run init evs in
  let r := step s (FindPartner sid ints) in
  Map_get sid (activeUsers s) = Some cu →
  (r.2 = [mkEmit sid "waiting" PNone] ∧ waitingUsers r.1 = [cu]) ∨
  (waitingUsers r.1 = [] ∧
   ∃ pid room, head r.2 = Some (mkEmit sid "partner-found" (PPartnerFound pid room true))).
Proof.
  intros s r Hg. pose proof (wf_run evs) as Hwf.
  pose proof (pool_small_run evs) as Hlen. fold s in Hwf, Hlen.
  unfold r. simpl.
  destruct (on_find_partner_cases s sid ints cu Hwf Hg)
    as (c0 & Hc0 & _ & _ & _ & _ & Hcases).
  destruct Hcases as [[Hfp ->]|(i & pl & p & _ & Hi & _ & _ & _ & _ & ->)]; simpl.
  - left. by rewrite (queued_alone s sid ints cu c0 Hwf Hg Hc0 Hfp).
  - right. split; [|eauto].
    pose proof (sublist_length _ _
      (removeFromWaiting_sublist (users s) (id c0) (waitingUsers s))) as Hl1.
    destruct (removeFromWaiting (users s) (id c0) (waitingUsers s))
      as [|l [|? ?]]; [done | | simpl in *; lia].
    by destruct i.
Qed.

Lemma find_partner_outcome_witness :
  (step (run init [Connection "sA" "A"]) (FindPartner "sA" None)).2 =
    [mkEmit "sA" "waiting" PNone] ∧
  waitingUsers (step (run init [Connection "sA" "A"]) (FindPartner "sA" None)).1 = [0].
Proof.
  destruct (find_partner_outcome [Connection "sA" "A"] "sA" None 0 eq_refl)
    as [H|[H _]]; [exact H | discriminate H].
Defined.
